(** * Spraycharles: the spray scheduler of [spraycharles/lib/spraycharles.py]

    A shallow embedding of the class [Spraycharles]: its pacing check, its
    credential-list re-check, its retrying login wrapper, the equal pass and
    the main spray loop, together with the properties the specification
    states about them.

    The Python methods run against collaborators the file does not define
    (the target module, the analyzer, the file system, the random source).
    Their answers are taken from an environment indexed by a clock that is
    advanced at every query, and every call with an observable effect is
    written to a trace of events. *)

From Stdlib Require Import String Ascii ZArith List Lia Bool.
From stdpp Require Import base decidable option list gmap strings pretty.

Local Open Scope string_scope.
Local Open Scope list_scope.
Local Open Scope Z_scope.

(** ** Exceptions

    The exception classes that [_login] can see, with the parents they have
    in Python and in the [requests] library ([RequestException] derives from
    [IOError], which is [OSError]; [ConnectTimeout] derives from both
    [ConnectionError] and [Timeout]). *)

Inductive exn_class :=
  | BaseException
  | OSError
  | RequestException
  | ConnectionError
  | Timeout
  | ConnectTimeout
  | ReadTimeout
  | ConnectionRefusedError
  | ConnectionResetError
  | AttributeError
  | ValueError
  | TypeError.

Definition exn_class_eqb (c d : exn_class) : bool :=
  match c, d with
  | BaseException, BaseException | OSError, OSError
  | RequestException, RequestException | ConnectionError, ConnectionError
  | Timeout, Timeout | ConnectTimeout, ConnectTimeout
  | ReadTimeout, ReadTimeout
  | ConnectionRefusedError, ConnectionRefusedError
  | ConnectionResetError, ConnectionResetError
  | AttributeError, AttributeError | ValueError, ValueError
  | TypeError, TypeError => true
  | _, _ => false
  end.

(** The direct base classes of a class. *)
Definition bases (c : exn_class) : list exn_class :=
  match c with
  | BaseException => []
  | OSError => [BaseException]
  | RequestException => [OSError]
  | ConnectionError => [RequestException]
  | Timeout => [RequestException]
  | ConnectTimeout => [ConnectionError; Timeout]
  | ReadTimeout => [Timeout]
  | ConnectionRefusedError => [OSError]
  | ConnectionResetError => [OSError]
  | AttributeError => [BaseException]
  | ValueError => [BaseException]
  | TypeError => [BaseException]
  end.

(** [issubclass c d], following the base classes upwards (the hierarchy is
    at most five levels deep). *)
Fixpoint issubclass_upto (depth : nat) (c d : exn_class) : bool :=
  exn_class_eqb c d ||
  match depth with
  | O => false
  | S depth' => existsb (fun b => issubclass_upto depth' b d) (bases c)
  end.

Definition issubclass (c d : exn_class) : bool := issubclass_upto 5 c d.

(** What a Python call does: it returns a value or raises. *)
Inductive pyresult (A : Type) :=
  | Returns (a : A)
  | Raises (e : exn_class).
Arguments Returns {A} a.
Arguments Raises {A} e.

(** ** Configuration, state and environment *)

(** A response of the target module; the scheduler only passes it on. *)
Record response := { status_code : Z; body : string }.

(** The bound target: the module instance made by [initialize_module]. *)
Record target_t := {
  t_name : string;
  t_host : string;
  t_port : Z;
  t_timeout : Z;
  t_fireprox : option string;
  t_path : option string;
  t_plain_http : bool
}.

(** The constructor arguments that are never assigned again. *)
Record config := {
  password_file : string;
  user_file : string;
  host : string;
  module : string;
  path : option string;
  output : string;
  attempts : option Z;
  interval : Z;
  equal : bool;
  timeout : Z;
  port : Z;
  fireprox : option string;
  domain : option string;
  analyze : bool;
  jitter : option Z;
  jitter_min : Z;
  notify : option string;
  webhook : option string;
  pause : bool;
  no_ssl : bool;
  print_to_screen : bool
}.

(** The attributes the methods assign, and the clock of the environment.
    [usernames] and [passwords] are the two list objects the constructor
    received: [extend] changes them in place, so each is one field. *)
Record state := {
  usernames : list string;
  passwords : list string;
  login_attempts : Z;
  total_hits : Z;
  target : option target_t;
  log_name : option string;
  clock : nat
}.

(** The collaborators. Each answer may depend on the moment of the query. *)
Record env := {
  (** the names of the classes in [spraycharles.targets.all] *)
  all_modules : list string;
  (** [target.login(username, password)] *)
  login_result : nat -> string -> string -> pyresult response;
  (** [open(path).read().splitlines()], [None] when it raises *)
  read_lines : nat -> string -> option (list string);
  (** where the next element lands when a set is turned into a list *)
  set_order : nat -> nat -> nat;
  (** the entropy behind [random.randint] *)
  entropy : nat -> Z;
  (** [Analyzer(...).analyze()] given the current hit total *)
  analyze_result : nat -> Z -> pyresult Z
}.

(** ** Events *)

Inductive event :=
  | ELogin (username password : string) (r : pyresult response)
  | EPrintResponse (r : option response) (is_timeout : bool) (echo : bool)
  | EWarning (msg : string)
  | EInfo (msg : string)
  | EDebug (msg : string)
  | ELogfile (msg : string)
  | EPrint
  | EBackoffSleep (seconds : Z)
  | EJitterSleep (seconds : Z)
  | EIntervalSleep (seconds : Z)
  | EAnalyze (hits : Z) (r : pyresult Z)
  | EConfirm (prompt : string)
  | EAddTask (description : string) (total : nat)
  | EAdvance
  | ESetLoginAttempts (n : Z).

(** ** The monad of the methods

    A method reads and changes the state, appends to the trace, and ends in
    one of three ways: it returns, it raises, or the model ran out of fuel
    (only the retry in [_login] and the loop over a growing password list
    need fuel). In [_login] the fuel is the number of frames the interpreter
    still allows, and running out of it is the [RecursionError] that then
    leaves the method. *)

Inductive outcome (A : Type) :=
  | Done (a : A)
  | Raised (e : exn_class)
  | OutOfFuel.
Arguments Done {A} a.
Arguments Raised {A} e.
Arguments OutOfFuel {A}.

Definition M (A : Type) : Type := state -> outcome A * state * list event.

Definition ret {A} (a : A) : M A := fun s => (Done a, s, []).

Definition bind {A B} (m : M A) (f : A -> M B) : M B :=
  fun s =>
    match m s with
    | (Done a, s1, t1) =>
        let '(r, s2, t2) := f a s1 in (r, s2, t1 ++ t2)
    | (Raised e, s1, t1) => (Raised e, s1, t1)
    | (OutOfFuel, s1, t1) => (OutOfFuel, s1, t1)
    end.

#[global] Instance M_ret : MRet M := @ret.
#[global] Instance M_bind : MBind M := fun A B f m => bind m f.

Definition emit (e : event) : M unit := fun s => (Done tt, s, [e]).
Definition raise {A} (e : exn_class) : M A := fun s => (Raised e, s, []).
Definition out_of_fuel {A} : M A := fun s => (OutOfFuel, s, []).
Definition get : M state := fun s => (Done s, s, []).
Definition put (s : state) : M unit := fun _ => (Done tt, s, []).
Definition when (b : bool) (m : M unit) : M unit := if b then m else ret tt.

(** One query of the environment: the clock value it is asked at. *)
Definition tick : M nat :=
  fun s =>
    (Done (clock s),
     {| usernames := usernames s; passwords := passwords s;
        login_attempts := login_attempts s; total_hits := total_hits s;
        target := target s; log_name := log_name s;
        clock := S (clock s) |}, []).

Definition set_usernames (l : list string) (s : state) : state :=
  {| usernames := l; passwords := passwords s;
     login_attempts := login_attempts s; total_hits := total_hits s;
     target := target s; log_name := log_name s; clock := clock s |}.

Definition set_passwords (l : list string) (s : state) : state :=
  {| usernames := usernames s; passwords := l;
     login_attempts := login_attempts s; total_hits := total_hits s;
     target := target s; log_name := log_name s; clock := clock s |}.

Definition set_total_hits (n : Z) (s : state) : state :=
  {| usernames := usernames s; passwords := passwords s;
     login_attempts := login_attempts s; total_hits := n;
     target := target s; log_name := log_name s; clock := clock s |}.

Definition set_target (t : option target_t) (s : state) : state :=
  {| usernames := usernames s; passwords := passwords s;
     login_attempts := login_attempts s; total_hits := total_hits s;
     target := t; log_name := log_name s; clock := clock s |}.

Definition set_log_name (n : option string) (s : state) : state :=
  {| usernames := usernames s; passwords := passwords s;
     login_attempts := login_attempts s; total_hits := total_hits s;
     target := target s; log_name := n; clock := clock s |}.

Definition set_login_attempts (n : Z) (s : state) : state :=
  {| usernames := usernames s; passwords := passwords s;
     login_attempts := n; total_hits := total_hits s;
     target := target s; log_name := log_name s; clock := clock s |}.

Definition modify (f : state -> state) : M unit :=
  fun s => (Done tt, f s, []).

(** An assignment to [self.login_attempts]; the trace keeps every value the
    counter takes. *)
Definition assign_login_attempts (n : Z) : M unit :=
  modify (set_login_attempts n);; emit (ESetLoginAttempts n).

(** ** Python helpers *)

(** [time.sleep(seconds)] and [sleep(seconds)]: a negative length raises
    [ValueError]; [mk] tells the call sites apart in the trace. *)
Definition sleep_for (mk : Z -> event) (seconds : Z) : M unit :=
  if seconds <? 0 then raise ValueError else emit (mk seconds).

(** [s.split("@")]: the pieces between the separators, never empty. *)
Fixpoint split_at_sign (s : string) : list string :=
  match s with
  | EmptyString => [EmptyString]
  | String c s' =>
      if Ascii.eqb c "@"%char then EmptyString :: split_at_sign s'
      else match split_at_sign s' with
           | piece :: pieces => String c piece :: pieces
           | [] => [String c EmptyString]
           end
  end.

(** [list(a_set)]: Python fixes no order for the elements of a set. The
    environment decides, for each element in turn, at which position of the
    list built so far it is put. *)
Fixpoint insert_at {A} (n : nat) (x : A) (l : list A) : list A :=
  match n, l with
  | S n', y :: l' => y :: insert_at n' x l'
  | _, _ => x :: l
  end.

Fixpoint arrange {A} (pick : nat -> nat) (l : list A) : list A :=
  match l with
  | [] => []
  | x :: l' => insert_at (pick (length l')) x (arrange pick l')
  end.

Definition list_of_set (pick : nat -> nat) (X : gset string) : list string :=
  arrange pick (elements X).

(** Truth values of the optional settings: [None], the empty string and 0
    are false. *)
Definition truthy_string (o : option string) : bool :=
  match o with
  | Some s => negb (String.eqb s EmptyString)
  | None => false
  end.

Definition truthy_int (o : option Z) : bool :=
  match o with
  | Some n => negb (n =? 0)
  | None => false
  end.

(** Which [except] clause of [_login] takes an exception: the clauses are
    tried in the order they are written. *)
Inductive except_clause := ExceptConnectTimeout | ExceptConnection | Uncaught.

Definition matching_clause (e : exn_class) : except_clause :=
  if issubclass e ConnectTimeout then ExceptConnectTimeout
  else if issubclass e ConnectionError || issubclass e ReadTimeout
          || issubclass e OSError then ExceptConnection
  else Uncaught.

(** ** The methods of [Spraycharles] *)

Section Methods.
Variable cfg : config.
Variable E : env.

(** The module instance [target(self.host, self.port, self.timeout,
    self.fireprox)], with the two optional setters applied. *)
Definition bind_target (name : string) : target_t :=
  {| t_name := name; t_host := host cfg; t_port := port cfg;
     t_timeout := timeout cfg; t_fireprox := fireprox cfg;
     t_path := if String.eqb name "NTLM" then path cfg else None;
     t_plain_http := no_ssl cfg |}.

Fixpoint scan_modules (names : list string) : M unit :=
  match names with
  | [] => ret tt
  | name :: rest =>
      when (String.eqb (module cfg) name)
        (emit (EDebug ("Using " +:+ name +:+ " module"));;
         modify (set_target (Some (bind_target name))));;
      scan_modules rest
  end.

(** [initialize_module]: the scan, then the log file (its name carries the
    host; the home directory and the time stamp are left out). *)
Definition initialize_module : M unit :=
  scan_modules (all_modules E);;
  modify (set_log_name (Some ("/.spraycharles/logs/" +:+ host cfg +:+ ".log"))).

(** [_check_sleep] *)
Definition _check_sleep : M unit :=
  s ← get;
  if decide (Some (login_attempts s) = attempts cfg) then
    (if analyze cfg then
       now ← tick;
       let r := analyze_result E now (total_hits s) in
       emit (EAnalyze (total_hits s) r);;
       match r with
       | Raises e => raise e
       | Returns new_hit_total =>
           when ((total_hits s <? new_hit_total) && pause cfg)
             (emit EPrint;;
              emit (EInfo "Identified new potentially successful login! Pausing...");;
              emit EPrint;;
              emit (EConfirm "[blue]Press enter to continue"));;
           modify (set_total_hits new_hit_total)
       end
     else ret tt);;
    emit EPrint;;
    emit (EInfo "Sleeping until");;
    sleep_for EIntervalSleep (interval cfg * 60);;
    emit EPrint;;
    assign_login_attempts 0
  else ret tt.

(** [_check_file_contents]: the bare [except] turns every failure of the
    read into the empty list. *)
Definition _check_file_contents (file_path : string)
    (current_list : list string) : M (list string) :=
  now ← tick;
  let new_list :=
    match read_lines E now file_path with
    | Some lines => lines
    | None => []
    end in
  let additions :=
    list_of_set (set_order E now)
      (list_to_set new_list ∖ list_to_set current_list) in
  ret additions.

(** [_login]: the call of itself in the last clause is the retry, so every
    retry nests one frame deeper. [fuel] is the depth the interpreter still
    allows (CPython's recursion limit, 1000 frames unless changed, less the
    frames in use); beyond it the interpreter raises [RecursionError], which
    is no [OSError]: no clause takes it and it leaves every frame of
    [_login]. That end is [out_of_fuel]. With no target bound,
    [self.target.login] raises [AttributeError] inside the [try], and no
    clause takes it. [print_response] is taken to return. *)
Fixpoint _login (fuel : nat) (username password : string) : M unit :=
  match fuel with
  | O => out_of_fuel
  | S fuel' =>
      s ← get;
      match target s with
      | None => raise AttributeError
      | Some _ =>
          now ← tick;
          let r := login_result E now username password in
          emit (ELogin username password r);;
          match r with
          | Returns response =>
              emit (EPrintResponse (Some response) false (print_to_screen cfg))
          | Raises e =>
              match matching_clause e with
              | ExceptConnectTimeout =>
                  emit (EPrintResponse None true (print_to_screen cfg))
              | ExceptConnection =>
                  emit EPrint;;
                  emit (EWarning "Connection error - sleeping for 5 seconds");;
                  sleep_for EBackoffSleep 5;;
                  _login fuel' username password
              | Uncaught => raise e
              end
          end
      end
  end.

(** [_jitter]: [random.randint(a, b)] raises [ValueError] on an empty
    range and otherwise draws from [a..b]. *)
Definition _jitter : M unit :=
  if truthy_int (jitter cfg) then
    let hi := default 0 (jitter cfg) in
    if hi <? jitter_min cfg then raise ValueError
    else
      now ← tick;
      let num := jitter_min cfg + entropy E now `mod` (hi - jitter_min cfg + 1) in
      emit (EDebug ("Jitter sleep: " +:+ pretty num +:+ " seconds"));;
      sleep_for EJitterSleep num
  else ret tt.

(** The body of the loop of [_spray_equal], from index [indx] on. *)
Fixpoint equal_users (fuel : nat) (indx : nat) (users : list string) : M unit :=
  match users with
  | [] => ret tt
  | username :: rest =>
      when (0 <? indx)%nat _jitter;;
      let password := hd EmptyString (split_at_sign username) in
      _login fuel username password;;
      emit EAdvance;;
      emit (ELogfile ("Login attempted as " +:+ username));;
      equal_users fuel (S indx) rest
  end.

(** [_spray_equal] *)
Definition _spray_equal (fuel : nat) : M unit :=
  s ← get;
  emit (EAddTask "[yellow]Password = Username" (length (usernames s)));;
  equal_users fuel 0 (usernames s);;
  s ← get;
  assign_login_attempts (login_attempts s + 1).

(** [f"{self.domain}\\{username}"] when a domain is set. *)
Definition sent_username (username : string) : string :=
  if truthy_string (domain cfg)
  then default EmptyString (domain cfg) +:+ "\" +:+ username
  else username.

(** The inner loop of [spray] for one password, from index [indx] on. *)
Fixpoint spray_users (fuel : nat) (password : string) (indx : nat)
    (users : list string) : M unit :=
  match users with
  | [] => ret tt
  | username :: rest =>
      (if equal cfg then _jitter else when (0 <? indx)%nat _jitter);;
      let username := sent_username username in
      _login fuel username password;;
      emit EAdvance;;
      emit (ELogfile ("Login attempted as " +:+ username));;
      spray_users fuel password (S indx) rest
  end.

(** The body of the outer loop of [spray] for one password. *)
Definition spray_round (fuel : nat) (password : string) : M unit :=
  _check_sleep;;
  s ← get;
  new_users ← _check_file_contents (user_file cfg) (usernames s);
  new_passwords ← _check_file_contents (password_file cfg) (passwords s);
  when (0 <? length new_users)%nat
    (emit (EInfo ("Adding " +:+ pretty (length new_users)
                  +:+ " new users into the spray!"));;
     modify (fun s => set_usernames (usernames s ++ new_users) s));;
  when (0 <? length new_passwords)%nat
    (emit (EInfo ("Adding " +:+ pretty (length new_passwords)
                  +:+ " new passwords to the end the spray!"));;
     modify (fun s => set_passwords (passwords s ++ new_passwords) s));;
  when ((0 <? length new_passwords)%nat || (0 <? length new_users)%nat)
    (emit EPrint);;
  s ← get;
  emit (EAddTask ("[green]Spraying: " +:+ password) (length (usernames s)));;
  spray_users fuel password 0 (usernames s);;
  s ← get;
  assign_login_attempts (login_attempts s + 1).

(** The outer loop of [spray]: the list iterator holds an index into
    [self.passwords] and stops when the index reaches the length the list
    has at that moment, so it sees what the body appended. *)
Fixpoint spray_passwords (fuel : nat) (i : nat) : M unit :=
  match fuel with
  | O => out_of_fuel
  | S fuel' =>
      s ← get;
      match passwords s !! i with
      | None => ret tt
      | Some password =>
          spray_round fuel password;;
          spray_passwords fuel' (S i)
      end
  end.

(** [spray] *)
Definition spray (fuel : nat) : M unit :=
  when (equal cfg) (_spray_equal fuel);;
  spray_passwords fuel 0;;
  emit (EInfo "Spray complete!");;
  s ← get;
  now ← tick;
  let r := analyze_result E now (total_hits s) in
  emit (EAnalyze (total_hits s) r);;
  match r with
  | Raises e => raise e
  | Returns _ => ret tt
  end.

End Methods.

(** ** Reading a trace *)

(** A login call that ended its attempt: it returned, or raised something
    the retry clause does not take. *)
Definition concluded (e : event) : option (string * string) :=
  match e with
  | ELogin u p (Returns _) => Some (u, p)
  | ELogin u p (Raises x) =>
      match matching_clause x with
      | ExceptConnection => None
      | _ => Some (u, p)
      end
  | _ => None
  end.

Definition login_call (e : event) : option (string * string) :=
  match e with
  | ELogin u p _ => Some (u, p)
  | _ => None
  end.

Definition record (e : event) : option (option response * bool) :=
  match e with
  | EPrintResponse r is_timeout _ => Some (r, is_timeout)
  | _ => None
  end.

Definition counter_value (e : event) : option Z :=
  match e with
  | ESetLoginAttempts n => Some n
  | _ => None
  end.

Definition round_task (e : event) : option (string * nat) :=
  match e with
  | EAddTask d n => Some (d, n)
  | _ => None
  end.

(** The pacing view of a run: the interval sleeps and the starts of the
    rounds (a round starts with its progress task). *)
Inductive mark :=
  | Sleep
  | Round (description : string).

Definition mark_of (e : event) : option mark :=
  match e with
  | EIntervalSleep _ => Some Sleep
  | EAddTask d _ => Some (Round d)
  | _ => None
  end.

Definition is_sleep (m : mark) : bool :=
  match m with
  | Sleep => true
  | Round _ => false
  end.

Definition attempts_of (tr : list event) : list (string * string) := omap concluded tr.
Definition login_calls (tr : list event) : list (string * string) := omap login_call tr.
Definition records (tr : list event) : list (option response * bool) := omap record tr.
Definition counter_values (tr : list event) : list Z := omap counter_value tr.
Definition round_tasks (tr : list event) : list (string * nat) := omap round_task tr.
Definition marks (tr : list event) : list mark := omap mark_of tr.

(** The events of one attempt and of the jitter before it. *)
Definition attempt_level (e : event) : Prop :=
  match e with
  | ELogin _ _ _ | EPrintResponse _ _ _ | EPrint | EWarning _
  | EBackoffSleep _ | EDebug _ | EJitterSleep _ | EAdvance | ELogfile _ => True
  | _ => False
  end.

(** The descriptions of the progress tasks. *)
Definition equal_task : string := "[yellow]Password = Username".
Definition round_task_of (password : string) : string :=
  "[green]Spraying: " +:+ password.

(** ** What the specification expects *)

(** The text of a username before its first [@]. *)
Fixpoint local_part (s : string) : string :=
  match s with
  | EmptyString => EmptyString
  | String c s' =>
      if Ascii.eqb c "@"%char then EmptyString else String c (local_part s')
  end.

Fixpoint has_at_sign (s : string) : bool :=
  match s with
  | EmptyString => false
  | String c s' => Ascii.eqb c "@"%char || has_at_sign s'
  end.

(** The pacing rule in closed form: with [r] rounds completed, the check
    before the next round sleeps when [r] is a positive multiple of the
    limit. *)
Definition sleeps_before (A : Z) (r : nat) : bool :=
  (0 <? r)%nat && (Z.of_nat r mod A =? 0).

Fixpoint schedule (A : Z) (r : nat) (descriptions : list string) : list mark :=
  match descriptions with
  | [] => []
  | d :: rest =>
      (if sleeps_before A r then [Sleep] else []) ++ Round d :: schedule A (S r) rest
  end.

(** The descriptions of all rounds of a run, the equal pass first. *)
Definition rounds_of (cfg : config) (pws : list string) : list string :=
  (if equal cfg then [equal_task] else []) ++ map round_task_of pws.

(** The pairs of one password round over the first [n] usernames. *)
Definition round_pairs (cfg : config) (users : list string)
    (round : string * nat) : list (string * string) :=
  map (fun u => (sent_username cfg u, round.1)) (take round.2 users).

Definition equal_pairs (users : list string) : list (string * string) :=
  map (fun u => (u, hd EmptyString (split_at_sign u))) users.

(** Every interval sleep in a trace is followed at once by the blank line
    the method prints and the reset of the counter. *)
Definition resets_after_sleep (tr : list event) : Prop :=
  forall pre post seconds,
    tr = pre ++ EIntervalSleep seconds :: post ->
    exists post', post = EPrint :: ESetLoginAttempts 0 :: post'.

(** ** Reasoning about runs *)

(** [wp m s Q]: the run of [m] from [s] ends in a way that satisfies [Q]. *)
Definition wp {A} (m : M A) (s : state)
    (Q : outcome A -> state -> list event -> Prop) : Prop :=
  let '(r, s', tr) := m s in Q r s' tr.

Lemma wp_run {A} (m : M A) s Q r s' tr :
  wp m s Q -> m s = (r, s', tr) -> Q r s' tr.
Proof. unfold wp. intros H E. now rewrite E in H. Qed.

Lemma wp_mono {A} (m : M A) s (Q Q' : outcome A -> state -> list event -> Prop) :
  wp m s Q -> (forall r s' tr, Q r s' tr -> Q' r s' tr) -> wp m s Q'.
Proof. unfold wp. destruct (m s) as [[r s'] tr]. auto. Qed.

Lemma wp_conj {A} (m : M A) s (Q Q' : outcome A -> state -> list event -> Prop) :
  wp m s Q -> wp m s Q' -> wp m s (fun r s' tr => Q r s' tr /\ Q' r s' tr).
Proof. unfold wp. destruct (m s) as [[r s'] tr]. auto. Qed.

Lemma wp_bind {A B} (m : M A) (f : A -> M B) s Q :
  wp m s (fun r s1 t1 =>
            match r with
            | Done a => wp (f a) s1 (fun r' s2 t2 => Q r' s2 (t1 ++ t2))
            | Raised e => Q (Raised e) s1 t1
            | OutOfFuel => Q OutOfFuel s1 t1
            end) ->
  wp (m ≫= f) s Q.
Proof.
  unfold wp, mbind, M_bind, bind.
  destruct (m s) as [[[a | e | ] s1] t1]; auto.
  destruct (f a s1) as [[r' s2] t2]. auto.
Qed.

(** A call whose behaviour is known by [Hm], followed by the rest. *)
Lemma wp_call {A B} (m : M A) (f : A -> M B) s P Q :
  wp m s P ->
  (forall r s1 t1, P r s1 t1 ->
     match r with
     | Done a => wp (f a) s1 (fun r' s2 t2 => Q r' s2 (t1 ++ t2))
     | Raised e => Q (Raised e) s1 t1
     | OutOfFuel => Q OutOfFuel s1 t1
     end) ->
  wp (m ≫= f) s Q.
Proof. intros Hm Hk. apply wp_bind. eapply wp_mono; eauto. Qed.

Definition bump (s : state) : state :=
  {| usernames := usernames s; passwords := passwords s;
     login_attempts := login_attempts s; total_hits := total_hits s;
     target := target s; log_name := log_name s; clock := S (clock s) |}.

Section Primitives.
Context {A : Type} (s : state) (Q : outcome A -> state -> list event -> Prop).

Lemma wp_ret (a : A) : Q (Done a) s [] -> wp (mret a) s Q.
Proof. auto. Qed.

Lemma wp_raise e : Q (Raised e) s [] -> wp (raise e) s Q.
Proof. auto. Qed.

Lemma wp_out_of_fuel : Q OutOfFuel s [] -> wp out_of_fuel s Q.
Proof. auto. Qed.

Lemma wp_ret_bind {B} (b : B) (f : B -> M A) :
  wp (f b) s Q -> wp (mret b ≫= f) s Q.
Proof.
  unfold wp, mbind, M_bind, bind, mret, M_ret, ret.
  destruct (f b s) as [[r s'] tr]. auto.
Qed.

Lemma wp_raise_bind {B} e (f : B -> M A) :
  Q (Raised e) s [] -> wp (raise e ≫= f) s Q.
Proof. auto. Qed.

Lemma wp_emit_bind e (f : unit -> M A) :
  wp (f tt) s (fun r s' tr => Q r s' (e :: tr)) -> wp (emit e ≫= f) s Q.
Proof.
  unfold wp, mbind, M_bind, bind, emit.
  destruct (f tt s) as [[r s'] tr]. auto.
Qed.

Lemma wp_get_bind (f : state -> M A) :
  wp (f s) s Q -> wp (get ≫= f) s Q.
Proof.
  unfold wp, mbind, M_bind, bind, get.
  destruct (f s s) as [[r s'] tr]. auto.
Qed.

Lemma wp_modify_bind g (f : unit -> M A) :
  wp (f tt) (g s) Q -> wp (modify g ≫= f) s Q.
Proof.
  unfold wp, mbind, M_bind, bind, modify.
  destruct (f tt (g s)) as [[r s'] tr]. auto.
Qed.

Lemma wp_tick_bind (f : nat -> M A) :
  wp (f (clock s)) (bump s) Q -> wp (tick ≫= f) s Q.
Proof.
  unfold wp, mbind, M_bind, bind, tick, bump.
  match goal with |- context [f ?a ?b] => destruct (f a b) as [[r s'] tr] end.
  auto.
Qed.
End Primitives.

Lemma wp_emit s (Q : outcome unit -> state -> list event -> Prop) e :
  Q (Done tt) s [e] -> wp (emit e) s Q.
Proof. auto. Qed.

Lemma wp_assign_bind {A} s (Q : outcome A -> state -> list event -> Prop) n
    (f : unit -> M A) :
  wp (f tt) (set_login_attempts n s)
     (fun r s' tr => Q r s' (ESetLoginAttempts n :: tr)) ->
  wp (assign_login_attempts n ≫= f) s Q.
Proof.
  unfold wp, assign_login_attempts, mbind, M_bind, bind, modify, emit.
  cbn. destruct (f tt (set_login_attempts n s)) as [[r s'] tr]. auto.
Qed.

Lemma wp_assign s (Q : outcome unit -> state -> list event -> Prop) n :
  Q (Done tt) (set_login_attempts n s) [ESetLoginAttempts n] ->
  wp (assign_login_attempts n) s Q.
Proof. auto. Qed.

Lemma wp_sleep_bind {A} s (Q : outcome A -> state -> list event -> Prop) mk n
    (f : unit -> M A) :
  (n < 0 -> Q (Raised ValueError) s []) ->
  (0 <= n -> wp (f tt) s (fun r s' tr => Q r s' (mk n :: tr))) ->
  wp (sleep_for mk n ≫= f) s Q.
Proof.
  intros Hneg Hpos. unfold sleep_for. destruct (Z.ltb_spec n 0).
  - apply wp_raise_bind. auto.
  - apply wp_emit_bind. auto.
Qed.

Lemma wp_sleep s (Q : outcome unit -> state -> list event -> Prop) mk n :
  (n < 0 -> Q (Raised ValueError) s []) ->
  (0 <= n -> Q (Done tt) s [mk n]) ->
  wp (sleep_for mk n) s Q.
Proof.
  intros Hneg Hpos. unfold sleep_for. destruct (Z.ltb_spec n 0).
  - apply wp_raise. auto.
  - apply wp_emit. auto.
Qed.

Lemma wp_modify s (Q : outcome unit -> state -> list event -> Prop) g :
  Q (Done tt) (g s) [] -> wp (modify g) s Q.
Proof. auto. Qed.

Lemma wp_assoc {A B C} (m : M A) (f : A -> M B) (g : B -> M C) s Q :
  wp (m ≫= fun a => f a ≫= g) s Q -> wp ((m ≫= f) ≫= g) s Q.
Proof.
  unfold wp, mbind, M_bind, bind.
  destruct (m s) as [[[a | e | ] s1] t1]; auto.
  destruct (f a s1) as [[[b | e | ] s2] t2]; auto.
  destruct (g b s2) as [[r s3] t3]. now rewrite app_assoc.
Qed.

Ltac wp_step :=
  lazymatch goal with
  | |- wp ((_ ≫= _) ≫= _) _ _ => apply wp_assoc
  | |- wp (mret _ ≫= _) _ _ => apply wp_ret_bind
  | |- wp (ret _ ≫= _) _ _ => apply wp_ret_bind
  | |- wp (raise _ ≫= _) _ _ => apply wp_raise_bind
  | |- wp (emit _ ≫= _) _ _ => apply wp_emit_bind
  | |- wp (get ≫= _) _ _ => apply wp_get_bind
  | |- wp (modify _ ≫= _) _ _ => apply wp_modify_bind
  | |- wp (tick ≫= _) _ _ => apply wp_tick_bind
  | |- wp (assign_login_attempts _ ≫= _) _ _ => apply wp_assign_bind
  | |- wp (mret _) _ _ => apply wp_ret
  | |- wp (ret _) _ _ => apply wp_ret
  | |- wp (raise _) _ _ => apply wp_raise
  | |- wp out_of_fuel _ _ => apply wp_out_of_fuel
  | |- wp (emit _) _ _ => apply wp_emit
  | |- wp (assign_login_attempts _) _ _ => apply wp_assign
  | |- wp (modify _) _ _ => apply wp_modify
  | |- wp (when true _ ≫= _) _ _ => unfold when at 1
  | |- wp (when false _ ≫= _) _ _ => unfold when at 1
  | |- wp (when true _) _ _ => unfold when at 1
  | |- wp (when false _) _ _ => unfold when at 1
  end;
  cbn beta iota.

Ltac wp_steps := repeat wp_step.

(** ** Frames *)

(** [frame s s']: nothing but the clock differs. *)
Definition frame (s s' : state) : Prop :=
  usernames s' = usernames s /\ passwords s' = passwords s /\
  login_attempts s' = login_attempts s /\ total_hits s' = total_hits s /\
  target s' = target s /\ log_name s' = log_name s.

Lemma frame_refl s : frame s s.
Proof. repeat split. Qed.

Lemma frame_trans s1 s2 s3 : frame s1 s2 -> frame s2 s3 -> frame s1 s3.
Proof. unfold frame. intuition congruence. Qed.

#[local] Hint Resolve frame_refl : core.

(** ** Views of appended traces *)

Lemma omap_none {A B} (f : A -> option B) (P : A -> Prop) (l : list A) :
  Forall P l -> (forall x, P x -> f x = None) -> omap f l = [].
Proof.
  intros Hl Hf. induction Hl as [|x l Hx _ IH]; [reflexivity|].
  cbn. now rewrite (Hf x Hx).
Qed.

Definition login_event (u p : string) (e : event) : Prop :=
  match e with
  | ELogin u' p' _ => u' = u /\ p' = p
  | EPrintResponse _ _ _ | EPrint | EWarning _ | EBackoffSleep _ => True
  | _ => False
  end.

Definition jitter_event (e : event) : Prop :=
  match e with
  | EDebug _ | EJitterSleep _ => True
  | _ => False
  end.

Lemma login_event_attempt_level u p e : login_event u p e -> attempt_level e.
Proof. destruct e; simpl; tauto. Qed.

Lemma jitter_event_attempt_level e : jitter_event e -> attempt_level e.
Proof. destruct e; simpl; tauto. Qed.

(** Lists of views. *)
Lemma marks_app t1 t2 : marks (t1 ++ t2) = marks t1 ++ marks t2.
Proof. apply omap_app. Qed.

Lemma counter_values_app t1 t2 :
  counter_values (t1 ++ t2) = counter_values t1 ++ counter_values t2.
Proof. apply omap_app. Qed.

Lemma round_tasks_app t1 t2 :
  round_tasks (t1 ++ t2) = round_tasks t1 ++ round_tasks t2.
Proof. apply omap_app. Qed.

Lemma attempt_level_views tr :
  Forall attempt_level tr ->
  marks tr = [] /\ counter_values tr = [] /\ round_tasks tr = [].
Proof.
  intros H. repeat split; (eapply omap_none; [exact H|]); now intros [].
Qed.

(** The recursive reading of [resets_after_sleep]. *)
Fixpoint sleeps_reset (tr : list event) : Prop :=
  match tr with
  | [] => True
  | EIntervalSleep _ :: rest =>
      (exists post', rest = EPrint :: ESetLoginAttempts 0 :: post') /\
      sleeps_reset rest
  | _ :: rest => sleeps_reset rest
  end.

Lemma sleeps_reset_app t1 t2 :
  sleeps_reset t1 -> sleeps_reset t2 -> sleeps_reset (t1 ++ t2).
Proof.
  intros H1 H2. induction t1 as [|e t1 IH]; [exact H2|].
  destruct e; cbn in *; auto.
  destruct H1 as [[post' ->] H1]. split; [|auto].
  eexists. reflexivity.
Qed.

Lemma sleeps_reset_none (P : event -> Prop) tr :
  Forall P tr -> (forall n, ~ P (EIntervalSleep n)) -> sleeps_reset tr.
Proof.
  intros H Hn. induction H as [|e tr He _ IH]; [exact I|].
  destruct e; cbn; auto. now apply Hn in He.
Qed.

Lemma sleeps_reset_sound tr : sleeps_reset tr -> resets_after_sleep tr.
Proof.
  intros H pre. revert tr H. induction pre as [|e pre IH]; intros tr H post n ->.
  - cbn in H. tauto.
  - apply (IH (pre ++ EIntervalSleep n :: post)) with (post := post) (seconds := n);
      [|reflexivity].
    destruct e; cbn in H; tauto.
Qed.

Section Facts.
Variable cfg : config.
Variable E : env.

Lemma jitter_spec s :
  wp (_jitter cfg E) s (fun r s' tr => frame s s' /\ Forall jitter_event tr).
Proof.
  unfold _jitter.
  destruct (truthy_int (jitter cfg)); [|wp_steps; auto].
  destruct (_ <? _); [wp_steps; auto|].
  wp_steps. apply wp_sleep; intros _; (split; [repeat split|]);
    repeat constructor.
Qed.

Lemma login_spec fuel u p s :
  wp (_login cfg E fuel u p) s
     (fun r s' tr => frame s s' /\ Forall (login_event u p) tr /\
                     (r = Done tt -> attempts_of tr = [(u, p)])).
Proof.
  revert s. induction fuel as [|fuel IH]; intros s.
  - wp_steps. repeat split; [constructor | discriminate].
  - cbn [_login]. wp_step.
    destruct (target s) eqn:Ht; [|wp_steps; repeat split; [constructor|discriminate]].
    wp_steps.
    destruct (login_result E (clock s) u p) as [resp | e] eqn:Hr.
    + wp_steps. split; [repeat split|]. split; [repeat constructor|].
      intros _. unfold attempts_of. cbn. reflexivity.
    + destruct (matching_clause e) eqn:Hc.
      * wp_steps. split; [repeat split|]. split; [repeat constructor|].
        intros _. unfold attempts_of. cbn. now rewrite Hc.
      * wp_steps. apply wp_sleep_bind; [lia|intros _].
        eapply wp_mono; [apply IH|]. cbn beta.
        intros r s' tr (Hf & Hev & Hd). split; [|split].
        -- eapply frame_trans; [|exact Hf]. repeat split.
        -- repeat (constructor; [cbn; auto|]). exact Hev.
        -- intros Hr'. unfold attempts_of in *. cbn. rewrite Hc. cbn. auto.
      * wp_steps. split; [repeat split|]. split; [repeat constructor|discriminate].
Qed.

Lemma attempts_of_app t1 t2 :
  attempts_of (t1 ++ t2) = attempts_of t1 ++ attempts_of t2.
Proof. apply omap_app. Qed.

Lemma attempts_of_jitter tr : Forall jitter_event tr -> attempts_of tr = [].
Proof. intros H. eapply omap_none; [exact H|]. now intros []. Qed.

(** One iteration of either inner loop: the optional jitter, the attempt,
    the progress update and the log line. *)
Lemma attempt_spec fuel (b : bool) u p (k : M unit) s (R : list (string * string)) :
  (forall s1, frame s s1 ->
     wp k s1 (fun r s' tr => frame s1 s' /\ Forall attempt_level tr /\
                              (r = Done tt -> attempts_of tr = R))) ->
  wp (when b (_jitter cfg E);; _login cfg E fuel u p;; emit EAdvance;;
      emit (ELogfile ("Login attempted as " +:+ u));; k) s
     (fun r s' tr => frame s s' /\ Forall attempt_level tr /\
                     (r = Done tt -> attempts_of tr = (u, p) :: R)).
Proof.
  intros Hk.
  assert (Hj : wp (when b (_jitter cfg E)) s
                 (fun r s' tr => frame s s' /\ Forall jitter_event tr)).
  { destruct b; [apply jitter_spec|]. wp_steps. auto. }
  eapply wp_call; [exact Hj|]. cbn beta. intros r s1 t1 [Hf1 Hj1].
  assert (Ha1 : Forall attempt_level t1).
  { eapply Forall_impl; [exact Hj1|]. apply jitter_event_attempt_level. }
  destruct r; [|auto | auto].
  2:{ repeat split; try apply Hf1; auto; discriminate. }
  2:{ repeat split; try apply Hf1; auto; discriminate. }
  eapply wp_call; [apply login_spec|]. cbn beta.
  intros r s2 t2 (Hf2 & Hl2 & Hd2).
  assert (Ha2 : Forall attempt_level t2).
  { eapply Forall_impl; [exact Hl2|]. apply login_event_attempt_level. }
  assert (Hf12 : frame s s2) by (eapply frame_trans; eauto).
  destruct r as [[] | |].
  2:{ split; [exact Hf12|]. split; [apply Forall_app; auto|discriminate]. }
  2:{ split; [exact Hf12|]. split; [apply Forall_app; auto|discriminate]. }
  wp_steps. eapply wp_mono; [apply Hk; exact Hf12|]. cbn beta.
  intros r s3 t3 (Hf3 & Ha3 & Hd3). split; [|split].
  - eapply frame_trans; eauto.
  - apply Forall_app. split; [exact Ha1|]. apply Forall_app. split; [exact Ha2|].
    repeat (constructor; [exact I|]). exact Ha3.
  - intros Hr. rewrite !attempts_of_app, (attempts_of_jitter t1 Hj1).
    rewrite (Hd2 eq_refl). cbn.
    change (omap concluded t3) with (attempts_of t3). now rewrite Hd3.
Qed.

Lemma equal_users_spec fuel users : forall indx s,
  wp (equal_users cfg E fuel indx users) s
     (fun r s' tr => frame s s' /\ Forall attempt_level tr /\
                     (r = Done tt -> attempts_of tr = equal_pairs users)).
Proof.
  induction users as [|u users IH]; intros indx s.
  - wp_steps. repeat split. constructor.
  - cbn [equal_users]. apply attempt_spec. intros s1 _. apply IH.
Qed.

Lemma spray_users_spec fuel p users : forall indx s,
  wp (spray_users cfg E fuel p indx users) s
     (fun r s' tr =>
        frame s s' /\ Forall attempt_level tr /\
        (r = Done tt ->
         attempts_of tr = map (fun u => (sent_username cfg u, p)) users)).
Proof.
  induction users as [|u users IH]; intros indx s.
  - wp_steps. repeat split. constructor.
  - cbn [spray_users].
    replace (if equal cfg then _jitter cfg E else when (0 <? indx)%nat (_jitter cfg E))
      with (when (equal cfg || (0 <? indx)%nat) (_jitter cfg E))
      by (destruct (equal cfg), (0 <? indx)%nat; reflexivity).
    apply attempt_spec. intros s1 _. apply IH.
Qed.

(** The additions [_check_file_contents] computes when asked at [now]. *)
Definition additions_at (now : nat) (file_path : string)
    (current_list : list string) : list string :=
  list_of_set (set_order E now)
    (list_to_set (default [] (read_lines E now file_path)) ∖ list_to_set current_list).

Lemma check_file_run file_path current_list s :
  _check_file_contents E file_path current_list s =
  (Done (additions_at (clock s) file_path current_list), bump s, []).
Proof.
  unfold _check_file_contents, additions_at, mbind, M_bind, bind, tick, ret, bump.
  cbn [clock]. destruct (read_lines E (clock s) file_path); reflexivity.
Qed.

Lemma wp_check_file_bind {A} file_path current_list (f : list string -> M A) s Q :
  wp (f (additions_at (clock s) file_path current_list)) (bump s) Q ->
  wp (_check_file_contents E file_path current_list ≫= f) s Q.
Proof.
  intros H. apply wp_bind. unfold wp at 1. rewrite check_file_run.
  eapply wp_mono; [exact H|]. auto.
Qed.

(** The events of the analysis step and of the announcement of the sleep. *)
Definition analysis_event (e : event) : Prop :=
  match e with
  | EAnalyze _ _ | EPrint | EInfo _ | EConfirm _ => True
  | _ => False
  end.

(** What [_check_sleep] leaves behind when the counter has reached the
    limit: the analysis events, and, unless something raised, the sleep and
    the reset. *)
Definition after_check (s : state) (r : outcome unit) (s' : state)
    (tr : list event) : Prop :=
  usernames s' = usernames s /\ passwords s' = passwords s /\
  target s' = target s /\
  exists pre, Forall analysis_event pre /\
    match r with
    | Done _ =>
        tr = pre ++ [EIntervalSleep (interval cfg * 60); EPrint;
                     ESetLoginAttempts 0] /\
        login_attempts s' = 0
    | _ => tr = pre /\ login_attempts s' = login_attempts s
    end.

Lemma sleep_and_reset_spec s s1 pre :
  usernames s1 = usernames s -> passwords s1 = passwords s ->
  target s1 = target s -> login_attempts s1 = login_attempts s ->
  Forall analysis_event pre ->
  wp (sleep_for EIntervalSleep (interval cfg * 60);; emit EPrint;;
      assign_login_attempts 0) s1
     (fun r s' tr => after_check s r s' (pre ++ tr)).
Proof.
  intros Hu Hp Ht Hc Hpre.
  apply wp_sleep_bind; [intros _ | intros _; wp_steps].
  - repeat (split; [assumption|]).
    exists pre. rewrite app_nil_r. auto.
  - repeat (split; [assumption|]).
    exists pre. auto.
Qed.

(** [_check_sleep]: nothing when the counter differs from the limit. *)
Lemma check_sleep_spec s :
  wp (_check_sleep cfg E) s
     (fun r s' tr =>
        if decide (Some (login_attempts s) = attempts cfg)
        then after_check s r s' tr
        else r = Done tt /\ s' = s /\ tr = []).
Proof.
  unfold _check_sleep. wp_step.
  destruct (decide (Some (login_attempts s) = attempts cfg)) as [Heq|Hne];
    [|wp_steps; auto].
  destruct (analyze cfg).
  - apply wp_bind. wp_steps.
    destruct (analyze_result E (clock s) (total_hits s)) as [new_hit_total|e].
    + destruct ((total_hits s <? new_hit_total) && pause cfg).
      * apply wp_bind. apply wp_bind. wp_steps. cbn [app].
        apply (sleep_and_reset_spec s _
                 [EAnalyze (total_hits s) (Returns new_hit_total); EPrint;
                  EInfo "Identified new potentially successful login! Pausing...";
                  EPrint; EConfirm "[blue]Press enter to continue";
                  EPrint; EInfo "Sleeping until"]);
          try reflexivity; repeat constructor.
      * apply wp_bind. wp_steps. cbn [app].
        apply (sleep_and_reset_spec s _
                 [EAnalyze (total_hits s) (Returns new_hit_total);
                  EPrint; EInfo "Sleeping until"]);
          try reflexivity; repeat constructor.
    + wp_steps. repeat (split; [reflexivity|]).
      eexists. split; [|split; reflexivity]. repeat constructor.
  - wp_steps. apply (sleep_and_reset_spec s s [EPrint; EInfo "Sleeping until"]);
      try reflexivity; repeat constructor.
Qed.

Lemma analysis_event_views tr :
  Forall analysis_event tr ->
  marks tr = [] /\ counter_values tr = [] /\ round_tasks tr = [] /\
  attempts_of tr = [] /\ sleeps_reset tr.
Proof.
  intros H. repeat split; try ((eapply omap_none; [exact H|]); now intros []).
  eapply sleeps_reset_none; [exact H|]. now intros n.
Qed.

(** [_check_sleep] through the views. *)
Lemma check_sleep_views s :
  wp (_check_sleep cfg E) s
     (fun r s' tr =>
        usernames s' = usernames s /\ passwords s' = passwords s /\
        target s' = target s /\ sleeps_reset tr /\
        round_tasks tr = [] /\ attempts_of tr = [] /\
        let slept := bool_decide (Some (login_attempts s) = attempts cfg) in
        match r with
        | Done _ =>
            login_attempts s' = (if slept then 0 else login_attempts s) /\
            marks tr = (if slept then [Sleep] else []) /\
            counter_values tr = (if slept then [0] else [])
        | _ => marks tr = [] /\ counter_values tr = []
        end).
Proof.
  eapply wp_mono; [apply check_sleep_spec|]. cbn beta zeta.
  intros r s' tr H. case_bool_decide as Hd.
  - rewrite decide_True in H by exact Hd.
    destruct H as (Hu & Hp & Ht & pre & Hpre & H).
    destruct (analysis_event_views pre Hpre) as (Hm & Hc & Hr & Ha & Hs).
    repeat (split; [assumption|]).
    destruct r as [[]| |]; destruct H as [-> Hl].
    + rewrite marks_app, counter_values_app, round_tasks_app, attempts_of_app.
      rewrite Hm, Hc, Hr, Ha. cbn. repeat split; auto.
      apply sleeps_reset_app; [exact Hs|]. cbn. eauto.
    + auto.
    + auto.
  - rewrite decide_False in H by exact Hd.
    destruct H as (-> & -> & ->). cbn. repeat split.
Qed.

Lemma wp_when_bind {A} (b : bool) (m : M unit) (f : unit -> M A) s Q :
  (b = true -> wp (m ≫= f) s Q) ->
  (b = false -> wp (f tt) s Q) ->
  wp (when b m ≫= f) s Q.
Proof.
  destruct b; intros Ht Hf; [now apply Ht|]. apply wp_ret_bind. now apply Hf.
Qed.

Lemma set_usernames_nil s : set_usernames (usernames s ++ []) s = s.
Proof. destruct s. unfold set_usernames. cbn. now rewrite app_nil_r. Qed.

Lemma set_passwords_nil s l : l = passwords s -> set_passwords (l ++ []) s = s.
Proof. intros ->. destruct s. unfold set_passwords. cbn. now rewrite app_nil_r. Qed.

Lemma length_zero_nil {A} (l : list A) : (0 <? length l)%nat = false -> l = [].
Proof. destruct l; [reflexivity|discriminate]. Qed.

(** The merge of the additions: whatever is logged, the two lists end up
    extended by the additions. *)
Lemma merge_spec {A} (U P : list string) (k : M A) s Q :
  (forall pre, Forall analysis_event pre ->
     wp k (set_passwords (passwords s ++ P) (set_usernames (usernames s ++ U) s))
        (fun r s' tr => Q r s' (pre ++ tr))) ->
  wp (when (0 <? length U)%nat
        (emit (EInfo ("Adding " +:+ pretty (length U)
                      +:+ " new users into the spray!"));;
         modify (fun s => set_usernames (usernames s ++ U) s));;
      when (0 <? length P)%nat
        (emit (EInfo ("Adding " +:+ pretty (length P)
                      +:+ " new passwords to the end the spray!"));;
         modify (fun s => set_passwords (passwords s ++ P) s));;
      when ((0 <? length P)%nat || (0 <? length U)%nat) (emit EPrint);;
      k) s Q.
Proof.
  intros Hk.
  apply wp_when_bind; intros HU; wp_steps;
    (apply wp_when_bind; intros HP; wp_steps);
    rewrite HU, HP; cbn [orb]; wp_steps;
    try (apply length_zero_nil in HU; subst U; rewrite set_usernames_nil in Hk);
    try (apply length_zero_nil in HP; subst P; rewrite set_passwords_nil in Hk by reflexivity).
  - apply (Hk [EInfo _; EInfo _; EPrint]). repeat constructor.
  - apply (Hk [EInfo _; EPrint]). repeat constructor.
  - apply (Hk [EInfo _; EPrint]). repeat constructor.
  - apply (Hk []). constructor.
Qed.

(** One round of the main loop. *)
Lemma round_spec fuel p s :
  wp (spray_round cfg E fuel p) s
     (fun r s' tr =>
        usernames s `prefix_of` usernames s' /\
        passwords s `prefix_of` passwords s' /\
        target s' = target s /\
        sleeps_reset tr /\
        let slept := bool_decide (Some (login_attempts s) = attempts cfg) in
        let c := if slept then 0 else login_attempts s in
        counter_values tr `prefix_of` ((if slept then [0] else []) ++ [c + 1]) /\
        (r = Done tt ->
           (exists tu tp,
               usernames s' =
                 usernames s ++ additions_at tu (user_file cfg) (usernames s) /\
               passwords s' =
                 passwords s ++ additions_at tp (password_file cfg) (passwords s)) /\
           login_attempts s' = c + 1 /\
           marks tr = (if slept then [Sleep] else []) ++ [Round (round_task_of p)] /\
           round_tasks tr = [(round_task_of p, length (usernames s'))] /\
           attempts_of tr = map (fun u => (sent_username cfg u, p)) (usernames s'))).
Proof.
  unfold spray_round.
  eapply wp_call; [apply check_sleep_views|]. cbn beta zeta.
  intros r s1 t1 (Hu1 & Hp1 & Ht1 & Hs1 & Hr1 & Ha1 & Hv).
  set (slept := bool_decide (Some (login_attempts s) = attempts cfg)) in *.
  destruct r as [[]| e |].
  2,3: destruct Hv as [Hm1 Hc1]; rewrite Hu1, Hp1, Hc1;
       repeat (split; [done || apply prefix_nil|]); discriminate.
  destruct Hv as (Hc1 & Hm1 & Hcv1).
  wp_step. apply wp_check_file_bind. apply wp_check_file_bind.
  apply merge_spec. intros pre Hpre.
  destruct (analysis_event_views pre Hpre) as (Hmp & Hcp & Hrp & Hap & Hsp).
  wp_steps.
  eapply wp_call; [apply spray_users_spec|]. cbn beta.
  intros r s2 t2 (Hf2 & Hal2 & Hd2).
  destruct (attempt_level_views t2 Hal2) as (Hm2 & Hc2 & Hr2).
  destruct Hf2 as (Hfu & Hfp & Hfc & _ & Hft & _).
  cbn [usernames passwords login_attempts target set_passwords set_usernames bump] in *.
  assert (Hpu : usernames s `prefix_of` usernames s2).
  { rewrite Hfu, Hu1. now apply prefix_app_r. }
  assert (Hpp : passwords s `prefix_of` passwords s2).
  { rewrite Hfp, Hp1. now apply prefix_app_r. }
  assert (Hsr : forall t0, sleeps_reset t0 ->
            sleeps_reset (t1 ++ pre ++ EAddTask ("[green]Spraying: " +:+ p)
               (length (usernames s1 ++
                  additions_at (clock s1) (user_file cfg) (usernames s1)))
               :: t2 ++ t0)).
  { intros t0 H0. repeat (apply sleeps_reset_app; [assumption|]). cbn.
    apply sleeps_reset_app; [|exact H0].
    eapply sleeps_reset_none; [exact Hal2|]. now intros n. }
  unfold marks, counter_values, round_tasks, attempts_of in *.
  destruct r as [[]| e |].
  - wp_steps. cbn [usernames passwords login_attempts target set_login_attempts].
    split; [exact Hpu|]. split; [exact Hpp|]. split; [congruence|].
    split; [apply Hsr; exact I|].
    rewrite !omap_app. cbn [omap list_omap mark_of counter_value round_task concluded].
    rewrite !omap_app. cbn [omap list_omap mark_of counter_value round_task concluded].
    rewrite Hcv1, Hcp, Hc2, Hm1, Hmp, Hm2, Hr1, Hrp, Hr2, Ha1, Hap, (Hd2 eq_refl).
    rewrite Hfc, Hc1. cbn [app].
    split; [reflexivity|]. intros _.
    split; [exists (clock s1), (S (clock s1)); rewrite Hfu, Hfp, Hu1, Hp1; auto|].
    split; [reflexivity|]. split; [reflexivity|].
    split; [now rewrite Hfu|]. rewrite app_nil_r. now rewrite Hfu.
  - split; [exact Hpu|]. split; [exact Hpp|]. split; [congruence|].
    split; [rewrite <- (app_nil_r t2); apply Hsr; exact I|].
    rewrite !omap_app. cbn [omap list_omap mark_of counter_value round_task concluded].
    rewrite Hcv1, Hcp, Hc2. cbn [app]. rewrite app_nil_r.
    split; [now apply prefix_app_r|discriminate].
  - split; [exact Hpu|]. split; [exact Hpp|]. split; [congruence|].
    split; [rewrite <- (app_nil_r t2); apply Hsr; exact I|].
    rewrite !omap_app. cbn [omap list_omap mark_of counter_value round_task concluded].
    rewrite Hcv1, Hcp, Hc2. cbn [app]. rewrite app_nil_r.
    split; [now apply prefix_app_r|discriminate].
Qed.
End Facts.

(** ** The retrying login *)

(** The clock after [n] more queries. *)
Definition advance (n : nat) (s : state) : state := Nat.iter n bump s.

(** Whether the third clause of [_login] takes the result: the attempt is
    then made again. *)
Definition retried (r : pyresult response) : bool :=
  match r with
  | Returns _ => false
  | Raises e =>
      match matching_clause e with
      | ExceptConnection => true
      | _ => false
      end
  end.

(** What a failed sub-attempt leaves in the trace. *)
Definition retry_events (u p : string) (r : pyresult response) : list event :=
  [ELogin u p r; EPrint; EWarning "Connection error - sleeping for 5 seconds";
   EBackoffSleep 5].

(** How an attempt ends on a result that is not retried. *)
Definition final_events (cfg : config) (r : pyresult response) : list event :=
  match r with
  | Returns resp => [EPrintResponse (Some resp) false (print_to_screen cfg)]
  | Raises e =>
      match matching_clause e with
      | ExceptConnectTimeout => [EPrintResponse None true (print_to_screen cfg)]
      | _ => []
      end
  end.

Definition final_outcome (r : pyresult response) : outcome unit :=
  match r with
  | Returns _ => Done tt
  | Raises e =>
      match matching_clause e with
      | Uncaught => Raised e
      | _ => Done tt
      end
  end.

Lemma wp_eq {A} (m : M A) s x :
  wp m s (fun r s' tr => (r, s', tr) = x) -> m s = x.
Proof. unfold wp. now destruct (m s) as [[r s'] tr]. Qed.

Lemma advance_S n s : advance n (bump s) = advance (S n) s.
Proof.
  unfold advance. symmetry. apply Nat.iter_succ_r.
Qed.

Lemma clock_advance n s : clock (advance n s) = (clock s + n)%nat.
Proof.
  induction n as [|n IH]; [cbn; lia|].
  unfold advance in *. rewrite Nat.iter_succ.
  change (clock (bump (Nat.iter n bump s))) with (S (clock (Nat.iter n bump s))).
  rewrite IH. lia.
Qed.

Lemma frame_advance n s : frame s (advance n s).
Proof.
  induction n as [|n IH]; [apply frame_refl|].
  eapply frame_trans; [exact IH|]. unfold advance. rewrite Nat.iter_succ.
  repeat split.
Qed.

Lemma flat_map_seq_S {A} (f : nat -> list A) n : forall a,
  flat_map f (seq (S a) n) = flat_map (fun k => f (S k)) (seq a n).
Proof.
  induction n as [|n IH]; intros a; [reflexivity|].
  cbn [seq flat_map]. now rewrite IH.
Qed.

Section LoginRuns.
Variable cfg : config.
Variable E : env.

(** The whole run of [_login] when the first [n] results are retried and
    the next one is not. *)
Lemma login_run u p : forall n fuel s,
  is_Some (target s) ->
  (forall k, (k < n)%nat -> retried (login_result E (clock s + k) u p) = true) ->
  retried (login_result E (clock s + n) u p) = false ->
  (n < fuel)%nat ->
  _login cfg E fuel u p s =
  (final_outcome (login_result E (clock s + n) u p),
   advance (S n) s,
   flat_map (fun k => retry_events u p (login_result E (clock s + k) u p)) (seq 0 n)
   ++ ELogin u p (login_result E (clock s + n) u p)
   :: final_events cfg (login_result E (clock s + n) u p)).
Proof.
  induction n as [|n IH]; intros fuel s Ht Hretry Hlast Hfuel.
  - destruct fuel as [|fuel]; [lia|]. apply wp_eq. cbn [_login]. wp_step.
    destruct Ht as [t Ht]. rewrite Ht. wp_steps.
    rewrite Nat.add_0_r in *. cbn [seq flat_map app].
    unfold final_outcome, final_events, retried in *.
    destruct (login_result E (clock s) u p) as [resp|e]; [wp_steps; reflexivity|].
    destruct (matching_clause e); [wp_steps; reflexivity|discriminate|wp_steps; reflexivity].
  - destruct fuel as [|fuel]; [lia|]. apply wp_eq. cbn [_login]. wp_step.
    destruct Ht as [t Ht]. rewrite Ht. wp_steps.
    pose proof (Hretry 0%nat ltac:(lia)) as H0. rewrite Nat.add_0_r in H0.
    unfold retried in H0.
    destruct (login_result E (clock s) u p) as [resp|e] eqn:Hr; [discriminate|].
    destruct (matching_clause e) eqn:Hc; try discriminate.
    wp_steps. apply wp_sleep_bind; [lia|intros _].
    unfold wp. rewrite (IH fuel (bump s)).
    + cbn [clock bump]. rewrite advance_S.
      replace (S (clock s) + n)%nat with (clock s + S n)%nat by lia.
      f_equal. cbn [seq flat_map]. rewrite Nat.add_0_r, Hr.
      unfold retry_events at 2. cbn [app]. do 4 f_equal.
      rewrite flat_map_seq_S. f_equal. apply flat_map_ext. intros k.
      now rewrite Nat.add_succ_comm.
    + cbn. now rewrite Ht.
    + intros k Hk. cbn [clock bump].
      replace (S (clock s) + k)%nat with (clock s + S k)%nat by lia.
      apply Hretry. lia.
    + cbn [clock bump].
      now replace (S (clock s) + n)%nat with (clock s + S n)%nat by lia.
    + lia.
Qed.

(** The same, when the attempt ends with a record. *)
Lemma login_run_recorded u p n fuel s :
  is_Some (target s) ->
  (forall k, (k < n)%nat ->
     exists e, login_result E (clock s + k) u p = Raises e /\
               matching_clause e = ExceptConnection) ->
  (n < fuel)%nat ->
  let retries :=
    flat_map (fun k => retry_events u p (login_result E (clock s + k) u p))
             (seq 0 n) in
  (forall resp,
     login_result E (clock s + n) u p = Returns resp ->
     _login cfg E fuel u p s =
     (Done tt, advance (S n) s,
      retries ++ [ELogin u p (Returns resp);
                  EPrintResponse (Some resp) false (print_to_screen cfg)])) /\
  (forall e,
     login_result E (clock s + n) u p = Raises e ->
     matching_clause e = ExceptConnectTimeout ->
     _login cfg E fuel u p s =
     (Done tt, advance (S n) s,
      retries ++ [ELogin u p (Raises e);
                  EPrintResponse None true (print_to_screen cfg)])).
Proof.
  intros Ht Hretry Hfuel retries.
  assert (Hr : forall k, (k < n)%nat ->
            retried (login_result E (clock s + k) u p) = true).
  { intros k Hk. destruct (Hretry k Hk) as (e & -> & He). cbn. now rewrite He. }
  split.
  - intros resp Hresp.
    rewrite (login_run u p n fuel s Ht Hr); rewrite ?Hresp; auto.
  - intros e He Hc.
    rewrite (login_run u p n fuel s Ht Hr); rewrite ?He; cbn; rewrite ?Hc; auto.
Qed.

Lemma records_retries u p (f : nat -> pyresult response) l :
  records (flat_map (fun k => retry_events u p (f k)) l) = [].
Proof.
  induction l as [|k l IH]; [reflexivity|].
  cbn [flat_map]. unfold records in *. rewrite omap_app, IH. reflexivity.
Qed.
End LoginRuns.

(** ** Concrete inputs *)

Definition a_response : response := {| status_code := 200; body := "ok" |}.

Definition a_target : target_t :=
  {| t_name := "Office365"; t_host := "example.org"; t_port := 443;
     t_timeout := 5; t_fireprox := None; t_path := None; t_plain_http := false |}.

(** A run with the given limit, equal flag and domain; no jitter, no
    analysis. *)
Definition a_config (limit : option Z) (eq : bool) (dom : option string) : config :=
  {| password_file := "passwords.txt"; user_file := "users.txt";
     host := "example.org"; module := "Office365"; path := None;
     output := "out.json"; attempts := limit; interval := 1; equal := eq;
     timeout := 5; port := 443; fireprox := None; domain := dom;
     analyze := false; jitter := None; jitter_min := 0; notify := None;
     webhook := None; pause := false; no_ssl := false;
     print_to_screen := true |}.

(** An environment whose files cannot be read (the lists were given as
    literals) and whose target answers every login. *)
Definition quiet_env : env :=
  {| all_modules := ["Office365"; "NTLM"; "SMB"];
     login_result := fun _ _ _ => Returns a_response;
     read_lines := fun _ _ => None;
     set_order := fun _ _ => O;
     entropy := fun _ => 0;
     analyze_result := fun _ hits => Returns hits |}.

(** The target refuses the connection twice, then answers. *)
Definition flaky_env : env :=
  {| all_modules := ["Office365"; "NTLM"; "SMB"];
     login_result := fun now _ _ =>
       if (now <? 2)%nat then Raises ConnectionRefusedError
       else Returns a_response;
     read_lines := fun _ _ => None;
     set_order := fun _ _ => O;
     entropy := fun _ => 0;
     analyze_result := fun _ hits => Returns hits |}.

(** The state the constructor leaves, with the given lists and target. *)
Definition initial_state (users pws : list string) (t : option target_t) : state :=
  {| usernames := users; passwords := pws; login_attempts := 0;
     total_hits := 0; target := t; log_name := None; clock := 0 |}.

(** ** The claims about [_login] *)

(** Within the depth the interpreter allows: a connect timeout ends the
    attempt with the timeout record and is not retried; a failure taken by
    the third clause (connection refused or reset, read timeout, any other
    [OSError]) prints the warning, sleeps 5 seconds and tries the same pair
    again, for any number [n] of such failures in a row that is below the
    depth [fuel], until a response or a connect timeout ends the attempt. *)
Theorem login_retries_until_terminal (cfg : config) (E : env) (u p : string)
    (n fuel : nat) (s : state) :
  is_Some (target s) ->
  (forall k, (k < n)%nat ->
     exists e, login_result E (clock s + k) u p = Raises e /\
               matching_clause e = ExceptConnection) ->
  (n < fuel)%nat ->
  let retries :=
    flat_map (fun k => retry_events u p (login_result E (clock s + k) u p))
             (seq 0 n) in
  (forall resp,
     login_result E (clock s + n) u p = Returns resp ->
     _login cfg E fuel u p s =
     (Done tt, advance (S n) s,
      retries ++ [ELogin u p (Returns resp);
                  EPrintResponse (Some resp) false (print_to_screen cfg)])) /\
  (forall e,
     login_result E (clock s + n) u p = Raises e ->
     matching_clause e = ExceptConnectTimeout ->
     _login cfg E fuel u p s =
     (Done tt, advance (S n) s,
      retries ++ [ELogin u p (Raises e);
                  EPrintResponse None true (print_to_screen cfg)])) /\
  matching_clause ConnectTimeout = ExceptConnectTimeout /\
  Forall (fun e => matching_clause e = ExceptConnection)
         [ConnectionError; ConnectionRefusedError; ConnectionResetError;
          ReadTimeout; OSError].
Proof.
  intros Ht Hretry Hfuel retries.
  destruct (login_run_recorded cfg E u p n fuel s Ht Hretry Hfuel) as [Hresp Htimeout].
  split; [exact Hresp|]. split; [exact Htimeout|].
  split; [reflexivity|repeat constructor].
Qed.

Lemma login_retries_until_terminal_witness :
  _login (a_config (Some 1) false None) flaky_env 3 "alice" "pw1"
    (initial_state ["alice"] ["pw1"] (Some a_target)) =
  (Done tt, advance 3 (initial_state ["alice"] ["pw1"] (Some a_target)),
   [ELogin "alice" "pw1" (Raises ConnectionRefusedError); EPrint;
    EWarning "Connection error - sleeping for 5 seconds"; EBackoffSleep 5;
    ELogin "alice" "pw1" (Raises ConnectionRefusedError); EPrint;
    EWarning "Connection error - sleeping for 5 seconds"; EBackoffSleep 5;
    ELogin "alice" "pw1" (Returns a_response);
    EPrintResponse (Some a_response) false true]).
Proof.
  refine (proj1 (login_retries_until_terminal (a_config (Some 1) false None)
                   flaky_env "alice" "pw1" 2 3
                   (initial_state ["alice"] ["pw1"] (Some a_target)) _ _ _)
                a_response eq_refl).
  - eexists. reflexivity.
  - intros k Hk. exists ConnectionRefusedError.
    destruct k as [|[|k]]; [split; reflexivity | split; reflexivity | lia].
  - lia.
Defined.

(** C3: one attempt on a pair leaves exactly one record: the response when
    the target answered, the timeout record when the connection timed out;
    the failed sub-attempts before it leave none. *)
Theorem login_records_exactly_once (cfg : config) (E : env) (u p : string)
    (n fuel : nat) (s : state) :
  is_Some (target s) ->
  (forall k, (k < n)%nat ->
     exists e, login_result E (clock s + k) u p = Raises e /\
               matching_clause e = ExceptConnection) ->
  (n < fuel)%nat ->
  (forall resp,
     login_result E (clock s + n) u p = Returns resp ->
     exists s' tr,
       _login cfg E fuel u p s = (Done tt, s', tr) /\
       records tr = [(Some resp, false)]) /\
  (forall e,
     login_result E (clock s + n) u p = Raises e ->
     matching_clause e = ExceptConnectTimeout ->
     exists s' tr,
       _login cfg E fuel u p s = (Done tt, s', tr) /\
       records tr = [(None, true)]) /\
  records (flat_map (fun k => retry_events u p (login_result E (clock s + k) u p))
                    (seq 0 n)) = [].
Proof.
  intros Ht Hretry Hfuel.
  destruct (login_run_recorded cfg E u p n fuel s Ht Hretry Hfuel) as [Hresp Htimeout].
  split; [|split; [|apply records_retries]].
  - intros resp Hr. do 2 eexists. split; [apply (Hresp resp Hr)|].
    unfold records. rewrite omap_app. fold (records (flat_map
      (fun k => retry_events u p (login_result E (clock s + k) u p)) (seq 0 n))).
    now rewrite records_retries.
  - intros e He Hc. do 2 eexists. split; [apply (Htimeout e He Hc)|].
    unfold records. rewrite omap_app. fold (records (flat_map
      (fun k => retry_events u p (login_result E (clock s + k) u p)) (seq 0 n))).
    now rewrite records_retries.
Qed.

(** The connection to the target always times out. *)
Definition timeout_env : env :=
  {| all_modules := ["Office365"; "NTLM"; "SMB"];
     login_result := fun _ _ _ => Raises ConnectTimeout;
     read_lines := fun _ _ => None;
     set_order := fun _ _ => O;
     entropy := fun _ => 0;
     analyze_result := fun _ hits => Returns hits |}.

Lemma login_records_exactly_once_witness :
  (exists s' tr,
     _login (a_config (Some 1) false None) flaky_env 3 "alice" "pw1"
       (initial_state ["alice"] ["pw1"] (Some a_target)) = (Done tt, s', tr) /\
     records tr = [(Some a_response, false)]) /\
  (exists s' tr,
     _login (a_config (Some 1) false None) timeout_env 1 "alice" "pw1"
       (initial_state ["alice"] ["pw1"] (Some a_target)) = (Done tt, s', tr) /\
     records tr = [(None, true)]).
Proof.
  split.
  - refine (proj1 (login_records_exactly_once (a_config (Some 1) false None)
                     flaky_env "alice" "pw1" 2 3
                     (initial_state ["alice"] ["pw1"] (Some a_target)) _ _ _)
                  a_response eq_refl).
    + eexists. reflexivity.
    + intros k Hk. exists ConnectionRefusedError.
      destruct k as [|[|k]]; [split; reflexivity | split; reflexivity | lia].
    + lia.
  - refine (proj1 (proj2 (login_records_exactly_once (a_config (Some 1) false None)
                     timeout_env "alice" "pw1" 0 1
                     (initial_state ["alice"] ["pw1"] (Some a_target)) _ _ _))
                  ConnectTimeout eq_refl eq_refl).
    + eexists. reflexivity.
    + intros k Hk. lia.
    + lia.
Defined.

(** ** The credential-list re-check *)

Lemma insert_at_perm {A} (x : A) l : forall n, insert_at n x l ≡ₚ x :: l.
Proof.
  induction l as [|y l IH]; intros [|n]; cbn; try reflexivity.
  rewrite IH. apply Permutation_swap.
Qed.

Lemma arrange_perm {A} (pick : nat -> nat) (l : list A) : arrange pick l ≡ₚ l.
Proof.
  induction l as [|x l IH]; [reflexivity|].
  cbn. rewrite insert_at_perm. now rewrite IH.
Qed.

Lemma list_of_set_spec pick (X : gset string) :
  NoDup (list_of_set pick X) /\ forall x, x ∈ list_of_set pick X <-> x ∈ X.
Proof.
  unfold list_of_set. split.
  - rewrite arrange_perm. apply NoDup_elements.
  - intros x. rewrite arrange_perm. apply elem_of_elements.
Qed.

(** C9: the re-check returns the lines of the file that are not in the
    current list, each once, in an order the caller cannot rely on; when the
    file cannot be read it returns the empty list. In both cases nothing is
    reported (the trace is empty) and the lists in memory are left as they
    were. *)
Theorem check_file_contents_delta (E : env) (file_path : string)
    (current_list : list string) (s : state) :
  exists additions,
    _check_file_contents E file_path current_list s = (Done additions, bump s, []) /\
    usernames (bump s) = usernames s /\ passwords (bump s) = passwords s /\
    (forall lines,
       read_lines E (clock s) file_path = Some lines ->
       NoDup additions /\
       forall x, x ∈ additions <-> x ∈ lines /\ x ∉ current_list) /\
    (read_lines E (clock s) file_path = None -> additions = []).
Proof.
  exists (additions_at E (clock s) file_path current_list).
  split; [apply check_file_run|]. split; [reflexivity|]. split; [reflexivity|].
  unfold additions_at. split.
  - intros lines ->. cbn [default].
    destruct (list_of_set_spec (set_order E (clock s))
                (list_to_set lines ∖ list_to_set current_list)) as [Hnd Hin].
    split; [exact Hnd|]. intros x. rewrite Hin.
    rewrite elem_of_difference, !elem_of_list_to_set. reflexivity.
  - intros ->. cbn [default].
    destruct (list_of_set_spec (set_order E (clock s))
                (list_to_set [] ∖ list_to_set current_list)) as [_ Hin].
    apply elem_of_nil_inv. intros x Hx. apply Hin in Hx.
    rewrite elem_of_difference, elem_of_list_to_set in Hx.
    destruct Hx as [Hx _]. now apply elem_of_nil in Hx.
Qed.

(** ** The equal pass *)

Lemma split_at_sign_nonempty s : split_at_sign s <> [].
Proof.
  destruct s as [|c s]; cbn; [discriminate|].
  destruct (Ascii.eqb c "@"); [discriminate|].
  destruct (split_at_sign s); discriminate.
Qed.

(** The first piece of the split is the text before the first [@]. *)
Lemma split_at_sign_head s : hd EmptyString (split_at_sign s) = local_part s.
Proof.
  induction s as [|c s IH]; [reflexivity|].
  cbn. destruct (Ascii.eqb c "@"); [reflexivity|].
  destruct (split_at_sign s) eqn:Hs; [now apply split_at_sign_nonempty in Hs|].
  cbn in *. now rewrite IH.
Qed.

(** [local_part] is the text before the first [@]: it has no [@], and the
    username is either all of it or continues with an [@]. *)
Lemma local_part_spec s :
  has_at_sign (local_part s) = false /\
  (s = local_part s \/ exists rest, s = local_part s +:+ String "@" rest).
Proof.
  induction s as [|c s [IH1 IH2]]; [cbn; auto|].
  cbn. destruct (Ascii.eqb_spec c "@") as [->|Hc].
  - split; [reflexivity|]. right. exists s. reflexivity.
  - cbn. rewrite IH1. split.
    + destruct (Ascii.eqb_spec c "@"); [contradiction|reflexivity].
    + destruct IH2 as [IH2|[rest IH2]].
      * left. now rewrite <- IH2.
      * right. exists rest. now rewrite IH2 at 1.
Qed.

Lemma equal_pairs_local users :
  equal_pairs users = map (fun u => (u, local_part u)) users.
Proof.
  unfold equal_pairs. apply map_ext. intros u. now rewrite split_at_sign_head.
Qed.

Section EqualPass.
Variable cfg : config.
Variable E : env.

Lemma spray_equal_spec fuel s :
  wp (_spray_equal cfg E fuel) s
     (fun r s' tr =>
        usernames s' = usernames s /\ passwords s' = passwords s /\
        target s' = target s /\ sleeps_reset tr /\
        counter_values tr `prefix_of` [login_attempts s + 1] /\
        (r = Done tt ->
           login_attempts s' = login_attempts s + 1 /\
           counter_values tr = [login_attempts s + 1] /\
           marks tr = [Round equal_task] /\
           round_tasks tr = [(equal_task, length (usernames s))] /\
           attempts_of tr = equal_pairs (usernames s))).
Proof.
  unfold _spray_equal. wp_steps.
  eapply wp_call; [apply equal_users_spec|]. cbn beta.
  intros r s1 t1 (Hf & Hal & Hd).
  destruct (attempt_level_views t1 Hal) as (Hm & Hc & Hr).
  assert (Hs : sleeps_reset t1).
  { eapply sleeps_reset_none; [exact Hal|]. now intros n. }
  destruct Hf as (Hfu & Hfp & Hfc & _ & Hft & _).
  unfold marks, counter_values, round_tasks, attempts_of in *.
  destruct r as [[]| e |].
  - wp_steps. cbn [usernames passwords login_attempts target set_login_attempts].
    repeat (split; [assumption|]).
    split; [cbn; apply sleeps_reset_app; [exact Hs|exact I]|].
    cbn [omap list_omap mark_of counter_value round_task concluded].
    rewrite !omap_app. cbn [omap list_omap mark_of counter_value round_task concluded].
    rewrite Hm, Hc, Hr, (Hd eq_refl), Hfc, app_nil_r. cbn [app].
    split; [reflexivity|]. intros _. repeat split. apply app_nil_r.
  - repeat (split; [assumption|]).
    cbn [omap list_omap counter_value]. rewrite Hc.
    split; [apply prefix_nil|discriminate].
  - repeat (split; [assumption|]).
    cbn [omap list_omap counter_value]. rewrite Hc.
    split; [apply prefix_nil|discriminate].
Qed.
End EqualPass.

(** C6: a completed equal pass has made one attempt per username, in list
    order, with the text before the first [@] as the password, and has added
    exactly 1 to the counter, in one assignment, whatever the number of
    usernames. *)
Theorem spray_equal_one_attempt_per_username (cfg : config) (E : env)
    (fuel : nat) (s s' : state) (tr : list event) :
  _spray_equal cfg E fuel s = (Done tt, s', tr) ->
  attempts_of tr = map (fun u => (u, local_part u)) (usernames s) /\
  (forall u, has_at_sign (local_part u) = false /\
             (u = local_part u \/
              exists rest, u = local_part u +:+ String "@" rest)) /\
  login_attempts s' = login_attempts s + 1 /\
  counter_values tr = [login_attempts s + 1].
Proof.
  intros Hrun.
  destruct (wp_run _ _ _ _ _ _ (spray_equal_spec cfg E fuel s) Hrun)
    as (_ & _ & _ & _ & _ & Hd).
  destruct (Hd eq_refl) as (Hc & Hcv & _ & _ & Ha).
  split; [now rewrite Ha, equal_pairs_local|].
  split; [apply local_part_spec|]. auto.
Qed.

Lemma spray_equal_one_attempt_per_username_witness :
  attempts_of
    ((_spray_equal (a_config (Some 2) true None) flaky_env 3
        (initial_state ["alice@corp.com"; "bob"] ["pw1"] (Some a_target))).2) =
  [("alice@corp.com", "alice"); ("bob", "bob")].
Proof.
  refine (proj1 (spray_equal_one_attempt_per_username
                   (a_config (Some 2) true None) flaky_env 3
                   (initial_state ["alice@corp.com"; "bob"] ["pw1"] (Some a_target))
                   _ _ _)).
  vm_compute. reflexivity.
Defined.

(** ** The main loop *)

Lemma prefix_take {A} (l1 l2 : list A) :
  l1 `prefix_of` l2 -> take (length l1) l2 = l1.
Proof. intros [k ->]. now rewrite take_app_length. Qed.

Lemma prefix_drop_lookup {A} (l1 l2 : list A) i x :
  l1 !! i = Some x -> l1 `prefix_of` l2 -> drop i l2 = x :: drop (S i) l2.
Proof.
  intros Hx Hp. apply drop_S. eapply prefix_lookup_Some; eauto.
Qed.

(** The counter after [done] completed rounds, for a limit [A]: it runs
    through 1, ..., [A] and starts again. *)
Definition counter_at (A : Z) (done : nat) : Z :=
  match done with
  | O => 0
  | S done' => Z.of_nat done' mod A + 1
  end.

Lemma counter_at_limit A done :
  0 < A -> counter_at A done = A <-> sleeps_before A done = true.
Proof.
  intros HA. unfold sleeps_before, counter_at.
  destruct done as [|done']; cbn [Nat.ltb Nat.leb andb].
  - split; [lia|discriminate].
  - rewrite Z.eqb_eq, Nat2Z.inj_succ.
    split; intros H.
    + apply Z.mod_divide; [lia|].
      exists (Z.of_nat done' / A + 1).
      pose proof (Z.div_mod (Z.of_nat done') A ltac:(lia)). nia.
    + apply Z.mod_divide in H; [|lia]. destruct H as [q Hq].
      pose proof (Z.mod_pos_bound (Z.of_nat done') A HA) as Hb.
      pose proof (Z.div_mod (Z.of_nat done') A ltac:(lia)) as Hd.
      assert (A * (q - Z.of_nat done' / A) = Z.of_nat done' mod A + 1) by nia.
      assert (q - Z.of_nat done' / A = 1) by nia. nia.
Qed.

Lemma counter_at_step A done :
  0 < A ->
  counter_at A (S done) = (if sleeps_before A done then 0 else counter_at A done) + 1.
Proof.
  intros HA. destruct (sleeps_before A done) eqn:Hs.
  - destruct done as [|done']; [discriminate|].
    unfold sleeps_before in Hs. cbn [Nat.ltb Nat.leb andb] in Hs.
    apply Z.eqb_eq in Hs. unfold counter_at. now rewrite Hs.
  - destruct done as [|done']; [unfold counter_at; now rewrite Z.mod_0_l by lia|].
    assert (Hne : counter_at A (S done') <> A).
    { intros H. apply counter_at_limit in H; [congruence|lia]. }
    unfold counter_at in *. rewrite Nat2Z.inj_succ.
    pose proof (Z.mod_pos_bound (Z.of_nat done') A HA) as Hb.
    rewrite <- Z.add_1_r.
    assert (Hm : (Z.of_nat done' + 1) mod A = Z.of_nat done' mod A + 1).
    { rewrite <- Zplus_mod_idemp_l. apply Z.mod_small. lia. }
    lia.
Qed.

Section MainLoop.
Variable cfg : config.
Variable E : env.

(** The rounds of the loop from index [i] on: their tasks, their sizes and
    their attempts, read against the lists at the end of the run. *)
Lemma spray_passwords_rounds fuel : forall i s,
  wp (spray_passwords cfg E fuel i) s
     (fun r s' tr =>
        usernames s `prefix_of` usernames s' /\
        passwords s `prefix_of` passwords s' /\
        target s' = target s /\
        sleeps_reset tr /\
        (r = Done tt ->
           map fst (round_tasks tr) = map round_task_of (drop i (passwords s')) /\
           Forall (fun n => (length (usernames s) <= n <= length (usernames s'))%nat)
                  (map snd (round_tasks tr)) /\
           attempts_of tr =
             flat_map (round_pairs cfg (usernames s'))
               (zip (drop i (passwords s')) (map snd (round_tasks tr))))).
Proof.
  induction fuel as [|fuel IH]; intros i s.
  - wp_steps. repeat split; try reflexivity; discriminate.
  - cbn [spray_passwords]. wp_step.
    destruct (passwords s !! i) as [p|] eqn:Hp.
    + eapply wp_call; [apply round_spec|]. cbn beta zeta.
      intros r s1 t1 (Hu1 & Hp1 & Ht1 & Hs1 & _ & Hd1).
      destruct r as [[]| e |]; [|repeat split; auto; discriminate..].
      destruct (Hd1 eq_refl) as (_ & _ & _ & Hr1 & Ha1).
      eapply wp_mono; [apply IH|]. cbn beta.
      intros r s' t2 (Hu2 & Hp2 & Ht2 & Hs2 & Hd2).
      split; [etrans; eauto|]. split; [etrans; eauto|]. split; [congruence|].
      split; [now apply sleeps_reset_app|].
      intros Hr. destruct (Hd2 Hr) as (Hm2 & Hf2 & Ha2).
      rewrite round_tasks_app, attempts_of_app, Hr1, Ha1, Ha2.
      rewrite (prefix_drop_lookup (passwords s) (passwords s') i p Hp)
        by (etrans; eauto).
      cbn [app map fst snd zip zip_with flat_map]. rewrite Hm2.
      split; [reflexivity|]. split.
      * constructor.
        -- split; apply prefix_length; auto.
        -- eapply Forall_impl; [exact Hf2|]. cbn beta. intros n [Hn1 Hn2].
           split; [|exact Hn2]. apply prefix_length in Hu1. lia.
      * unfold round_pairs at 2. cbn [fst snd].
        now rewrite (prefix_take _ _ Hu2).
    + wp_steps. do 3 (split; [reflexivity|]). split; [exact I|].
      intros _. apply lookup_ge_None in Hp. rewrite drop_ge by exact Hp.
      repeat split. constructor.
Qed.

(** The pacing of the loop from index [i] on, with [done] rounds completed
    before it. *)
Lemma spray_passwords_marks A (HA : attempts cfg = Some A) (Hpos : 0 < A) fuel :
  forall i s done,
    login_attempts s = counter_at A done ->
    wp (spray_passwords cfg E fuel i) s
       (fun r s' tr =>
          passwords s `prefix_of` passwords s' /\
          (r = Done tt ->
             marks tr = schedule A done (map round_task_of (drop i (passwords s'))))).
Proof.
  induction fuel as [|fuel IH]; intros i s done Hc.
  - wp_steps. split; [reflexivity|discriminate].
  - cbn [spray_passwords]. wp_step.
    destruct (passwords s !! i) as [p|] eqn:Hp.
    + eapply wp_call; [apply round_spec|]. cbn beta zeta.
      intros r s1 t1 (_ & Hp1 & _ & _ & _ & Hd1).
      destruct r as [[]| e |]; [|split; [auto|discriminate]..].
      destruct (Hd1 eq_refl) as (_ & Hc1 & Hm1 & _ & _).
      assert (Hslept : bool_decide (Some (login_attempts s) = attempts cfg)
                       = sleeps_before A done).
      { rewrite HA, Hc. destruct (sleeps_before A done) eqn:Hs.
        - apply bool_decide_eq_true. f_equal. now apply counter_at_limit.
        - apply bool_decide_eq_false. intros [= H].
          apply counter_at_limit in H; [congruence|lia]. }
      rewrite Hslept in Hc1, Hm1.
      eapply wp_mono; [apply (IH (S i) s1 (S done))|].
      * rewrite Hc1, Hc. symmetry. now apply counter_at_step.
      * cbn beta. intros r s' t2 [Hp2 Hd2].
        split; [etrans; eauto|]. intros Hr.
        rewrite marks_app, Hm1, (Hd2 Hr).
        rewrite (prefix_drop_lookup (passwords s) (passwords s') i p Hp)
          by (etrans; eauto).
        cbn [map schedule]. now rewrite <- app_assoc.
    + wp_steps. split; [reflexivity|]. intros _.
      apply lookup_ge_None in Hp. now rewrite drop_ge by exact Hp.
Qed.

(** The values the counter takes in the loop stay within the limit. *)
Lemma spray_passwords_bounded A (HA : attempts cfg = Some A) (Hpos : 0 < A) fuel :
  forall i s,
    0 <= login_attempts s <= A ->
    wp (spray_passwords cfg E fuel i) s
       (fun r s' tr => Forall (fun n => 0 <= n <= A) (counter_values tr)).
Proof.
  induction fuel as [|fuel IH]; intros i s Hc.
  - wp_steps. constructor.
  - cbn [spray_passwords]. wp_step.
    destruct (passwords s !! i) as [p|] eqn:Hp; [|wp_steps; constructor].
    eapply wp_call; [apply round_spec|]. cbn beta zeta.
    intros r s1 t1 (_ & _ & _ & _ & Hcv & Hd1).
    assert (Hb : Forall (fun n => 0 <= n <= A) (counter_values t1) /\
                 0 <= (if bool_decide (Some (login_attempts s) = attempts cfg)
                       then 0 else login_attempts s) + 1 <= A).
    { rewrite HA in *. destruct Hcv as [k Hk].
      assert (Hall : Forall (fun n => 0 <= n <= A) (counter_values t1 ++ k)).
      { rewrite <- Hk. case_bool_decide as Hs.
        - repeat constructor; lia.
        - assert (login_attempts s <> A) by congruence.
          repeat constructor; lia. }
      apply Forall_app in Hall. split; [tauto|].
      case_bool_decide as Hs; [lia|].
      assert (login_attempts s <> A) by congruence. lia. }
    destruct Hb as [Hb1 Hb2].
    destruct r as [[]| e |]; [|exact Hb1..].
    destruct (Hd1 eq_refl) as (_ & Hc1 & _).
    eapply wp_mono; [apply (IH (S i) s1); rewrite Hc1; exact Hb2|].
    cbn beta. intros r s' t2 Hb3.
    rewrite counter_values_app. apply Forall_app. auto.
Qed.
End MainLoop.

(** ** The whole run *)

Definition sleep_count (ms : list mark) : nat := length (List.filter is_sleep ms).

Lemma div_step A r :
  0 < A ->
  Z.of_nat r / A - Z.of_nat (Nat.pred r) / A = if sleeps_before A r then 1 else 0.
Proof.
  intros HA. destruct r as [|r']; [reflexivity|].
  unfold sleeps_before. cbn [Nat.pred Nat.ltb Nat.leb andb].
  rewrite Nat2Z.inj_succ, <- Z.add_1_r.
  set (a := Z.of_nat r').
  pose proof (Z.div_mod (a + 1) A ltac:(lia)) as Hd.
  pose proof (Z.mod_pos_bound (a + 1) A HA) as Hb.
  destruct (Z.eqb_spec ((a + 1) mod A) 0) as [H0|H0].
  - rewrite <- (Z.div_unique_pos a A ((a + 1) / A - 1) (A - 1)); lia.
  - rewrite <- (Z.div_unique_pos a A ((a + 1) / A) ((a + 1) mod A - 1)); lia.
Qed.

Lemma schedule_count A l : forall r,
  0 < A ->
  Z.of_nat (sleep_count (schedule A r l)) =
  Z.of_nat (Nat.pred (r + length l)) / A - Z.of_nat (Nat.pred r) / A.
Proof.
  induction l as [|d l IH]; intros r HA.
  - cbn. rewrite Nat.add_0_r. lia.
  - cbn [schedule length]. unfold sleep_count in *.
    rewrite List.filter_app, length_app. cbn [List.filter is_sleep length].
    rewrite Nat2Z.inj_add, (IH (S r) HA).
    replace (Nat.pred (r + S (length l))) with (r + length l)%nat by lia.
    replace (Nat.pred (S r + length l)) with (r + length l)%nat by lia.
    replace (Nat.pred (S r)) with r by lia.
    pose proof (div_step A r HA) as Hd.
    destruct (sleeps_before A r); cbn [List.filter is_sleep length]; lia.
Qed.

Section WholeRun.
Variable cfg : config.
Variable E : env.

(** The optional equal pass. *)
Lemma equal_part_spec fuel s :
  wp (when (equal cfg) (_spray_equal cfg E fuel)) s
     (fun r s' tr =>
        usernames s' = usernames s /\ passwords s' = passwords s /\
        target s' = target s /\ sleeps_reset tr /\
        counter_values tr `prefix_of` [login_attempts s + 1] /\
        (r = Done tt ->
           login_attempts s' = login_attempts s + (if equal cfg then 1 else 0) /\
           marks tr = (if equal cfg then [Round equal_task] else []) /\
           round_tasks tr =
             (if equal cfg then [(equal_task, length (usernames s))] else []) /\
           attempts_of tr = (if equal cfg then equal_pairs (usernames s) else []))).
Proof.
  destruct (equal cfg).
  - eapply wp_mono; [apply spray_equal_spec|]. cbn beta.
    intros r s' tr (Hu & Hp & Ht & Hs & Hc & Hd).
    repeat (split; [assumption|]). intros Hr.
    destruct (Hd Hr) as (H1 & _ & H3 & H4 & H5). auto.
  - wp_steps. do 3 (split; [reflexivity|]). split; [exact I|].
    split; [apply prefix_nil|]. intros _. repeat split. lia.
Qed.

(** The end of [spray]: the message and the last analysis. *)
Lemma spray_end_spec s :
  wp (emit (EInfo "Spray complete!");;
      s0 ← get;
      now ← tick;
      let r := analyze_result E now (total_hits s0) in
      emit (EAnalyze (total_hits s0) r);;
      match r with
      | Raises e => raise e
      | Returns _ => mret tt
      end) s
     (fun r s' tr =>
        usernames s' = usernames s /\ passwords s' = passwords s /\
        Forall analysis_event tr).
Proof.
  wp_steps. cbn zeta. wp_steps.
  destruct (analyze_result E (clock s) (total_hits s)); wp_steps;
    repeat split; repeat constructor.
Qed.

(** The rounds and the attempts of a run. *)
Lemma spray_rounds fuel s :
  wp (spray cfg E fuel) s
     (fun r s' tr =>
        sleeps_reset tr /\
        (r = Done tt ->
           usernames s `prefix_of` usernames s' /\
           passwords s `prefix_of` passwords s' /\
           exists sizes,
             length sizes = length (passwords s') /\
             Forall (fun n => (length (usernames s) <= n <= length (usernames s'))%nat)
                    sizes /\
             round_tasks tr =
               (if equal cfg then [(equal_task, length (usernames s))] else [])
               ++ zip (map round_task_of (passwords s')) sizes /\
             attempts_of tr =
               (if equal cfg then equal_pairs (usernames s) else [])
               ++ flat_map (round_pairs cfg (usernames s')) (zip (passwords s') sizes))).
Proof.
  unfold spray.
  eapply wp_call; [apply equal_part_spec|]. cbn beta.
  intros r s0 t0 (Hu0 & Hp0 & _ & Hs0 & _ & Hd0).
  destruct r as [[]| e |]; [|split; [auto|discriminate]..].
  destruct (Hd0 eq_refl) as (_ & _ & Hr0 & Ha0).
  eapply wp_call; [apply spray_passwords_rounds|]. cbn beta.
  intros r s1 t1 (Hu1 & Hp1 & _ & Hs1 & Hd1).
  destruct r as [[]| e |];
    [|split; [now apply sleeps_reset_app|discriminate]..].
  destruct (Hd1 eq_refl) as (Hf1 & Hz1 & Ha1). rewrite drop_0 in *.
  eapply wp_mono; [apply spray_end_spec|]. cbn beta.
  intros r s2 t2 (Hu2 & Hp2 & Hal2).
  destruct (analysis_event_views t2 Hal2) as (_ & _ & Hr2 & Ha2 & Hs2).
  split; [repeat apply sleeps_reset_app; assumption|].
  intros _. rewrite Hu2, Hp2, <- Hu0, <- Hp0.
  split; [exact Hu1|]. split; [exact Hp1|].
  exists (map snd (round_tasks t1)).
  rewrite !round_tasks_app, !attempts_of_app, Hr0, Ha0, Hr2, Ha2, Ha1, !app_nil_r.
  rewrite Hu0 in *. split; [|split; [exact Hz1|split; [|reflexivity]]].
  - rewrite <- (length_map round_task_of (passwords s1)), <- Hf1.
    now rewrite !length_map.
  - f_equal. rewrite <- Hf1. symmetry. apply zip_fst_snd.
Qed.

(** The pacing of a run under a limit [A]. *)
Lemma spray_marks A fuel s :
  attempts cfg = Some A -> 0 < A -> login_attempts s = 0 ->
  wp (spray cfg E fuel) s
     (fun r s' tr =>
        r = Done tt -> marks tr = schedule A 0 (rounds_of cfg (passwords s'))).
Proof.
  intros HA Hpos Hc. unfold spray.
  eapply wp_call; [apply equal_part_spec|]. cbn beta.
  intros r s0 t0 (_ & _ & _ & _ & _ & Hd0).
  destruct r as [[]| e |]; [|discriminate..].
  destruct (Hd0 eq_refl) as (Hc0 & Hm0 & _).
  eapply wp_call;
    [apply (spray_passwords_marks cfg E A HA Hpos fuel 0 s0
              (if equal cfg then 1%nat else 0%nat))|].
  { rewrite Hc0, Hc. destruct (equal cfg); [|reflexivity].
    unfold counter_at. now rewrite Z.mod_0_l by lia. }
  cbn beta. intros r s1 t1 [_ Hd1].
  destruct r as [[]| e |]; [|discriminate..].
  rewrite drop_0 in Hd1.
  eapply wp_mono; [apply spray_end_spec|]. cbn beta.
  intros r s2 t2 (_ & Hp2 & Hal2) _.
  destruct (analysis_event_views t2 Hal2) as (Hm2 & _).
  rewrite !marks_app, Hm0, Hm2, (Hd1 eq_refl), app_nil_r, Hp2.
  unfold rounds_of. destruct (equal cfg); reflexivity.
Qed.

(** The counter of a run under a limit [A]. *)
Lemma spray_bounded A fuel s :
  attempts cfg = Some A -> 0 < A -> login_attempts s = 0 ->
  wp (spray cfg E fuel) s
     (fun r s' tr => Forall (fun n => 0 <= n <= A) (counter_values tr)).
Proof.
  intros HA Hpos Hc. unfold spray.
  eapply wp_call; [apply equal_part_spec|]. cbn beta.
  intros r s0 t0 (_ & _ & _ & _ & Hcv0 & Hd0).
  assert (Hb0 : Forall (fun n => 0 <= n <= A) (counter_values t0)).
  { destruct Hcv0 as [k Hk].
    assert (Hall : Forall (fun n => 0 <= n <= A) (counter_values t0 ++ k)).
    { rewrite <- Hk, Hc. repeat constructor; lia. }
    apply Forall_app in Hall. tauto. }
  destruct r as [[]| e |]; [|exact Hb0..].
  destruct (Hd0 eq_refl) as (Hc0 & _).
  eapply wp_call; [apply (spray_passwords_bounded cfg E A HA Hpos fuel 0 s0)|].
  { rewrite Hc0, Hc. destruct (equal cfg); lia. }
  cbn beta. intros r s1 t1 Hb1.
  assert (Hb01 : Forall (fun n => 0 <= n <= A) (counter_values (t0 ++ t1))).
  { rewrite counter_values_app. apply Forall_app. auto. }
  destruct r as [[]| e |]; [|exact Hb01..].
  eapply wp_mono; [apply spray_end_spec|]. cbn beta.
  intros r s2 t2 (_ & _ & Hal2).
  destruct (analysis_event_views t2 Hal2) as (_ & Hc2 & _).
  rewrite !counter_values_app, Hc2, app_nil_r. apply Forall_app.
  split; [exact Hb0|exact Hb1].
Qed.
End WholeRun.

(** ** The claims about the run *)

(** The password file gains two lines while the first round is under way:
    at the re-check of the first round it holds [pw1] and [pw2], at the later
    ones [pw3] and [pw4] as well. The set of the additions is listed in the
    reverse of the order [elements] gives. *)
Definition growing_env : env :=
  {| all_modules := ["Office365"; "NTLM"; "SMB"];
     login_result := fun _ _ _ => Returns a_response;
     read_lines := fun now file_path =>
       if String.eqb file_path "passwords.txt" then
         if (now <? 2)%nat then Some ["pw1"; "pw2"]
         else Some ["pw1"; "pw2"; "pw3"; "pw4"]
       else None;
     set_order := fun _ n => n;
     entropy := fun _ => 0;
     analyze_result := fun _ hits => Returns hits |}.

(** C1: under a limit [A > 0], a completed run sleeps before a round exactly
    when the number of rounds completed before it (the equal pass counted as
    one) is a positive multiple of [A]; over [R] rounds that makes
    [(R - 1) / A] sleeps. With limit 1 and passwords [pw1], [pw2] the one
    sleep comes right before the round of [pw2]. *)
Theorem pacing_sleep_once_per_limit :
  (forall (cfg : config) (E : env) (fuel : nat) (s s' : state)
          (tr : list event) (A : Z),
     attempts cfg = Some A -> 0 < A -> login_attempts s = 0 ->
     spray cfg E fuel s = (Done tt, s', tr) ->
     marks tr = schedule A 0 (rounds_of cfg (passwords s')) /\
     Z.of_nat (sleep_count (marks tr)) =
     Z.of_nat (Nat.pred (length (rounds_of cfg (passwords s')))) / A) /\
  marks (spray (a_config (Some 1) false None) quiet_env 3
           (initial_state ["alice"; "bob"] ["pw1"; "pw2"] (Some a_target))).2 =
  [Round "[green]Spraying: pw1"; Sleep; Round "[green]Spraying: pw2"].
Proof.
  split; [|vm_compute; reflexivity].
  intros cfg E fuel s s' tr A HA Hpos Hc Hrun.
  pose proof (wp_run _ _ _ _ _ _ (spray_marks cfg E A fuel s HA Hpos Hc) Hrun eq_refl)
    as Hm.
  split; [exact Hm|].
  rewrite Hm, schedule_count by exact Hpos. cbn [Nat.add Nat.pred Z.of_nat].
  rewrite Z.div_0_l by lia. lia.
Qed.

Lemma pacing_sleep_once_per_limit_witness :
  Z.of_nat (sleep_count (marks
    (spray (a_config (Some 2) true None) quiet_env 6
       (initial_state ["alice"; "bob"] ["pw1"; "pw2"; "pw3"; "pw4"]
          (Some a_target))).2)) = 2.
Proof.
  refine (eq_trans
    (proj2 (proj1 pacing_sleep_once_per_limit
              (a_config (Some 2) true None) quiet_env 6%nat
              (initial_state ["alice"; "bob"] ["pw1"; "pw2"; "pw3"; "pw4"]
                 (Some a_target)) _ _ 2 eq_refl _ eq_refl _)) _).
  - lia.
  - vm_compute. reflexivity.
  - vm_compute. reflexivity.
Defined.

(** C2: the attempts of a completed run come one after the other, password
    by password in the order of the password list, and within a password
    username by username in the order of the username list (the first
    [n] usernames, where [n] is the length of the list when that round
    started); the equal pass, when set, comes before them. With usernames
    [alice], [bob], passwords [pw1], [pw2], limit 2 and nothing else set, the
    login calls are (alice,pw1), (bob,pw1), (alice,pw2), (bob,pw2) and no
    interval sleep occurs. *)
Theorem attempts_in_round_then_username_order :
  (forall (cfg : config) (E : env) (fuel : nat) (s s' : state) (tr : list event),
     spray cfg E fuel s = (Done tt, s', tr) ->
     exists sizes,
       length sizes = length (passwords s') /\
       Forall (fun n => (length (usernames s) <= n <= length (usernames s'))%nat)
              sizes /\
       round_tasks tr =
         (if equal cfg then [(equal_task, length (usernames s))] else [])
         ++ zip (map round_task_of (passwords s')) sizes /\
       attempts_of tr =
         (if equal cfg then equal_pairs (usernames s) else [])
         ++ flat_map (round_pairs cfg (usernames s')) (zip (passwords s') sizes)) /\
  (let run := spray (a_config (Some 2) false None) quiet_env 3
                (initial_state ["alice"; "bob"] ["pw1"; "pw2"] (Some a_target)) in
   run.1.1 = Done tt /\
   login_calls run.2 =
     [("alice", "pw1"); ("bob", "pw1"); ("alice", "pw2"); ("bob", "pw2")] /\
   sleep_count (marks run.2) = 0%nat).
Proof.
  split; [|vm_compute; auto].
  intros cfg E fuel s s' tr Hrun.
  destruct (wp_run _ _ _ _ _ _ (spray_rounds cfg E fuel s) Hrun) as [_ Hd].
  destruct (Hd eq_refl) as (_ & _ & sizes & H). exists sizes. exact H.
Qed.

Lemma attempts_in_round_then_username_order_witness :
  let run := spray (a_config (Some 2) false (Some "CORP")) flaky_env 4
               (initial_state ["alice"; "bob"] ["pw1"; "pw2"] (Some a_target)) in
  exists sizes,
    attempts_of run.2 =
    (if equal (a_config (Some 2) false (Some "CORP"))
     then equal_pairs ["alice"; "bob"] else [])
    ++ flat_map (round_pairs (a_config (Some 2) false (Some "CORP"))
                   (usernames run.1.2))
                (zip (passwords run.1.2) sizes).
Proof.
  intros run.
  assert (Hrun : spray (a_config (Some 2) false (Some "CORP")) flaky_env 4
                   (initial_state ["alice"; "bob"] ["pw1"; "pw2"] (Some a_target))
                 = (Done tt, run.1.2, run.2)) by (vm_compute; reflexivity).
  destruct (proj1 attempts_in_round_then_username_order _ _ _ _ _ _ Hrun)
    as (sizes & _ & _ & _ & H).
  exists sizes. exact H.
Defined.

(** C10: the rounds of a completed run are the passwords of the list as it
    is at the end: the ones the run started with, then the ones merged during
    the run, in the order they were appended; each of these rounds covers at
    least the usernames the run started with. In the run below [pw3] and
    [pw4] appear in the file during the first round, are merged as [pw4],
    [pw3] at the start of the second, and get their rounds in that order
    after [pw1] and [pw2]. *)
Theorem merged_passwords_get_their_rounds :
  (forall (cfg : config) (E : env) (fuel : nat) (s s' : state) (tr : list event),
     spray cfg E fuel s = (Done tt, s', tr) ->
     exists merged sizes,
       passwords s' = passwords s ++ merged /\
       length sizes = length (passwords s ++ merged) /\
       Forall (fun n => (length (usernames s) <= n)%nat) sizes /\
       map fst (round_tasks tr) =
         (if equal cfg then [equal_task] else [])
         ++ map round_task_of (passwords s) ++ map round_task_of merged /\
       attempts_of tr =
         (if equal cfg then equal_pairs (usernames s) else [])
         ++ flat_map (round_pairs cfg (usernames s'))
                     (zip (passwords s ++ merged) sizes)) /\
  (let run := spray (a_config None false None) growing_env 5
                (initial_state ["alice"; "bob"] ["pw1"; "pw2"] (Some a_target)) in
   run.1.1 = Done tt /\
   passwords run.1.2 = ["pw1"; "pw2"; "pw4"; "pw3"] /\
   login_calls run.2 =
     [("alice", "pw1"); ("bob", "pw1"); ("alice", "pw2"); ("bob", "pw2");
      ("alice", "pw4"); ("bob", "pw4"); ("alice", "pw3"); ("bob", "pw3")]).
Proof.
  split; [|vm_compute; auto].
  intros cfg E fuel s s' tr Hrun.
  destruct (wp_run _ _ _ _ _ _ (spray_rounds cfg E fuel s) Hrun) as [_ Hd].
  destruct (Hd eq_refl) as (_ & [merged Hm] & sizes & Hlen & Hsz & Hrt & Hat).
  exists merged, sizes.
  split; [exact Hm|]. rewrite <- Hm. split; [exact Hlen|]. split.
  { eapply Forall_impl; [exact Hsz|]. cbn beta. intros n Hn. lia. }
  split; [|exact Hat].
  rewrite <- (map_app round_task_of), <- Hm, Hrt, map_app.
  rewrite fst_zip by (rewrite length_map; lia).
  now destruct (equal cfg).
Qed.

Lemma merged_passwords_get_their_rounds_witness :
  let run := spray (a_config None false None) growing_env 5
               (initial_state ["alice"; "bob"] ["pw1"; "pw2"] (Some a_target)) in
  exists (merged : list string) (sizes : list nat),
    passwords run.1.2 = ["pw1"; "pw2"] ++ merged /\
    length sizes = length (["pw1"; "pw2"] ++ merged).
Proof.
  intros run.
  assert (Hrun : spray (a_config None false None) growing_env 5
                   (initial_state ["alice"; "bob"] ["pw1"; "pw2"] (Some a_target))
                 = (Done tt, run.1.2, run.2)) by (vm_compute; reflexivity).
  destruct (proj1 merged_passwords_get_their_rounds _ _ _ _ _ _ Hrun)
    as (merged & sizes & H1 & H2 & _).
  exists merged, sizes. split; [exact H1|exact H2].
Defined.

(** C8, as the code has it: under a limit [A >= 1], at every point of a run
    (completed or not) each value assigned to the counter lies between 0 and
    [A], and each interval sleep is followed at once by the blank line and
    the assignment of 0. *)
Theorem counter_within_limit (cfg : config) (E : env) (fuel : nat)
    (s s' : state) (r : outcome unit) (tr : list event) (A : Z) :
  attempts cfg = Some A -> 0 < A -> login_attempts s = 0 ->
  spray cfg E fuel s = (r, s', tr) ->
  Forall (fun n => 0 <= n <= A) (counter_values tr) /\
  resets_after_sleep tr.
Proof.
  intros HA Hpos Hc Hrun. split.
  - exact (wp_run _ _ _ _ _ _ (spray_bounded cfg E A fuel s HA Hpos Hc) Hrun).
  - apply sleeps_reset_sound.
    exact (proj1 (wp_run _ _ _ _ _ _ (spray_rounds cfg E fuel s) Hrun)).
Qed.

Lemma counter_within_limit_witness :
  let run := spray (a_config (Some 2) true None) quiet_env 6
               (initial_state ["alice"; "bob"] ["pw1"; "pw2"; "pw3"; "pw4"]
                  (Some a_target)) in
  Forall (fun n => 0 <= n <= 2) (counter_values run.2) /\
  resets_after_sleep run.2.
Proof.
  intros run.
  refine (counter_within_limit (a_config (Some 2) true None) quiet_env 6
            (initial_state ["alice"; "bob"] ["pw1"; "pw2"; "pw3"; "pw4"]
               (Some a_target)) run.1.2 run.1.1 run.2 2 eq_refl _ eq_refl _).
  - lia.
  - vm_compute. reflexivity.
Defined.

(** With the limit 0 the counter passes the limit and no sleep follows:
    the check sleeps once, before the first round, and never again. *)
Lemma counter_exceeds_limit_zero :
  let run := spray (a_config (Some 0) false None) quiet_env 3
               (initial_state ["alice"] ["pw1"; "pw2"] (Some a_target)) in
  run.1.1 = Done tt /\
  attempts (a_config (Some 0) false None) = Some 0 /\
  counter_values run.2 = [0; 1; 2] /\
  marks run.2 = [Sleep; Round "[green]Spraying: pw1"; Round "[green]Spraying: pw2"] /\
  ~ Forall (fun n => n <= 0) (counter_values run.2).
Proof.
  intros run.
  assert (Hcv : counter_values run.2 = [0; 1; 2]) by (vm_compute; reflexivity).
  split; [vm_compute; reflexivity|]. split; [reflexivity|].
  split; [exact Hcv|]. split; [vm_compute; reflexivity|].
  rewrite Hcv. intros H. apply Forall_cons in H as [_ H].
  apply Forall_cons in H as [H _]. lia.
Qed.

(** ** Where the code departs from the claims *)

(** C4: a module name that matches none of the known modules is not
    rejected. [initialize_module] returns with no target bound and reports
    nothing; [spray] then starts its loop, and the first login call raises
    [AttributeError]. With no usernames the run even completes. *)
Theorem unknown_module_is_not_rejected :
  let cfg := {| password_file := "passwords.txt"; user_file := "users.txt";
                host := "example.org"; module := "Okta"; path := None;
                output := "out.json"; attempts := Some 1; interval := 1;
                equal := false; timeout := 5; port := 443; fireprox := None;
                domain := None; analyze := false; jitter := None;
                jitter_min := 0; notify := None; webhook := None;
                pause := false; no_ssl := false; print_to_screen := true |} in
  let s0 := initial_state ["alice"] ["pw1"] None in
  ~ module cfg ∈ all_modules quiet_env /\
  initialize_module cfg quiet_env s0 =
    (Done tt,
     set_log_name (Some "/.spraycharles/logs/example.org.log") s0, []) /\
  (initialize_module cfg quiet_env;; spray cfg quiet_env 3) s0 =
    (Raised AttributeError,
     bump (bump (set_log_name (Some "/.spraycharles/logs/example.org.log") s0)),
     [EAddTask "[green]Spraying: pw1" 1]) /\
  ((initialize_module cfg quiet_env;; spray cfg quiet_env 3)
     (initial_state [] ["pw1"] None)).1.1 = Done tt.
Proof.
  cbn zeta. split; [|vm_compute; auto].
  intros H. repeat (apply elem_of_cons in H as [H|H]; [discriminate|]).
  now apply elem_of_nil in H.
Qed.

(** C5: with a domain set, the equal pass sends the username as it is; only
    the main loop puts the domain in front. *)
Theorem equal_pass_sends_no_domain :
  let run := spray (a_config (Some 2) true (Some "CORP")) quiet_env 3
               (initial_state ["alice"] ["pw1"] (Some a_target)) in
  run.1.1 = Done tt /\
  login_calls run.2 = [("alice", "alice"); ("CORP\alice", "pw1")].
Proof. vm_compute. auto. Qed.

(** In the main loop every login call carries the username [sent_username]
    makes of a listed one. *)
Lemma main_loop_sends_domain (cfg : config) (E : env) (fuel : nat)
    (s s' : state) (tr : list event) :
  spray_passwords cfg E fuel 0 s = (Done tt, s', tr) ->
  Forall (fun a => exists u, u ∈ usernames s' /\ a.1 = sent_username cfg u)
         (attempts_of tr).
Proof.
  intros Hrun.
  destruct (wp_run _ _ _ _ _ _ (spray_passwords_rounds cfg E fuel 0 s) Hrun)
    as (_ & _ & _ & _ & Hd).
  destruct (Hd eq_refl) as (_ & _ & ->).
  apply Forall_flat_map, Forall_forall. intros [p n] _.
  unfold round_pairs. apply Forall_map, Forall_forall. intros u Hu.
  exists u. split; [|reflexivity]. eapply subseteq_take, Hu.
Qed.

Section Depth.
Variable cfg : config.
Variable E : env.

Lemma login_out_of_depth u p : forall depth s,
  is_Some (target s) ->
  (forall k, (k < depth)%nat -> retried (login_result E (clock s + k) u p) = true) ->
  _login cfg E depth u p s =
  (OutOfFuel, advance depth s,
   flat_map (fun k => retry_events u p (login_result E (clock s + k) u p))
            (seq 0 depth)).
Proof.
  induction depth as [|depth IH]; intros s Ht Hretry; [reflexivity|].
  apply wp_eq. cbn [_login]. wp_step.
  destruct Ht as [t Ht]. rewrite Ht. wp_steps.
  pose proof (Hretry 0%nat ltac:(lia)) as H0. rewrite Nat.add_0_r in H0.
  unfold retried in H0.
  destruct (login_result E (clock s) u p) as [resp|e] eqn:Hr; [discriminate|].
  destruct (matching_clause e) eqn:Hc; try discriminate.
  wp_steps. apply wp_sleep_bind; [lia|intros _].
  unfold wp. rewrite (IH (bump s)).
  - cbn [clock bump]. rewrite advance_S.
    f_equal. cbn [seq flat_map]. rewrite Nat.add_0_r, Hr.
    unfold retry_events at 2. cbn [app]. do 4 f_equal.
    rewrite flat_map_seq_S. apply flat_map_ext. intros k.
    now rewrite Nat.add_succ_comm.
  - cbn. now rewrite Ht.
  - intros k Hk. cbn [clock bump].
    replace (S (clock s) + k)%nat with (clock s + S k)%nat by lia.
    apply Hretry. lia.
Qed.

Lemma login_calls_retries u p (f : nat -> pyresult response) l :
  login_calls (flat_map (fun k => retry_events u p (f k)) l) = map (fun _ => (u, p)) l.
Proof.
  induction l as [|k l IH]; [reflexivity|].
  cbn [flat_map map]. unfold login_calls in *. rewrite omap_app, IH. reflexivity.
Qed.
End Depth.

(** C7: the retry is not repeated without bound. It is a call of [_login]
    from inside its own handler, so every failure in a row costs a frame.
    With [depth] frames left, [depth] failures that the retry clause takes
    use them up: the attempt ends there, with the interpreter's error and
    not with a terminal outcome, it leaves no record, and the call that the
    target would have answered is never made. One frame more and the same
    attempt would have ended with the response. (A connect timeout is not
    retried, and each retry does warn, sleep 5 seconds and try the same pair
    again, as the claim says.) *)
Theorem login_retry_depth_is_bounded (cfg : config) (E : env) (u p : string)
    (depth : nat) (s : state) (resp : response) :
  is_Some (target s) ->
  (forall k, (k < depth)%nat ->
     retried (login_result E (clock s + k) u p) = true) ->
  login_result E (clock s + depth) u p = Returns resp ->
  let retries :=
    flat_map (fun k => retry_events u p (login_result E (clock s + k) u p))
             (seq 0 depth) in
  _login cfg E depth u p s = (OutOfFuel, advance depth s, retries) /\
  login_calls retries = repeat (u, p) depth /\
  records retries = [] /\
  attempts_of retries = [] /\
  _login cfg E (S depth) u p s =
  (Done tt, advance (S depth) s,
   retries ++ [ELogin u p (Returns resp);
               EPrintResponse (Some resp) false (print_to_screen cfg)]).
Proof.
  intros Ht Hretry Hresp retries.
  split; [now apply login_out_of_depth|].
  split.
  { unfold retries. rewrite login_calls_retries.
    clear. generalize 0%nat. induction depth as [|d IH]; intros a; [reflexivity|].
    cbn. now rewrite IH. }
  split; [apply records_retries|].
  split.
  { unfold retries, attempts_of. clear Hresp.
    assert (H : forall l, Forall (fun k => (k < depth)%nat) l ->
              omap concluded (flat_map
                (fun k => retry_events u p (login_result E (clock s + k) u p)) l) = []).
    { induction l as [|k l IH]; intros Hl; [reflexivity|].
      apply Forall_cons in Hl as [Hk Hl]. cbn [flat_map]. rewrite omap_app, (IH Hl).
      pose proof (Hretry k Hk) as Hr. unfold retried in Hr. cbn.
      destruct (login_result E (clock s + k) u p) as [r|e]; [discriminate|].
      destruct (matching_clause e); try discriminate. reflexivity. }
    apply H. apply Forall_forall. intros k Hk. apply elem_of_seq in Hk. lia. }
  rewrite (login_run cfg E u p depth (S depth) s Ht Hretry) by (rewrite ?Hresp; auto).
  rewrite Hresp. reflexivity.
Qed.

(** The target refuses the connection for the first thousand calls, then
    answers. *)
Definition outage_env : env :=
  {| all_modules := ["Office365"; "NTLM"; "SMB"];
     login_result := fun now _ _ =>
       if (now <? 1000)%nat then Raises ConnectionRefusedError
       else Returns a_response;
     read_lines := fun _ _ => None;
     set_order := fun _ _ => O;
     entropy := fun _ => 0;
     analyze_result := fun _ hits => Returns hits |}.

Lemma login_retry_depth_is_bounded_witness :
  let run := _login (a_config None false None) outage_env 1000 "alice" "pw1"
               (initial_state ["alice"] ["pw1"] (Some a_target)) in
  run.1.1 = OutOfFuel /\
  login_calls run.2 = repeat ("alice", "pw1") 1000 /\
  records run.2 = [].
Proof.
  intros run.
  destruct (login_retry_depth_is_bounded (a_config None false None) outage_env
              "alice" "pw1" 1000
              (initial_state ["alice"] ["pw1"] (Some a_target)) a_response)
    as (Hrun & Hcalls & Hrec & _).
  - eexists. reflexivity.
  - intros k Hk. cbn [login_result outage_env initial_state clock].
    rewrite Nat.add_0_l. now destruct (Nat.ltb_spec k 1000); [|lia].
  - reflexivity.
  - unfold run. rewrite Hrun. cbn [fst snd].
    split; [reflexivity|]. split; [exact Hcalls|exact Hrec].
Defined.

(** * Further properties of the scheduler *)

(** ** A proof rule for whole runs

    Many facts about a run have the same shape: a condition [Sc] on the state
    that every step keeps, a condition [Ti] on the trace that holds however
    the run ends, and a condition [Td] on the trace of a part that returned.
    When [Ti] and [Td] hold of the empty trace and are kept by appending, it
    is enough to check them on the three methods that talk to the outside
    ([_login], [_jitter], [_check_sleep]) and on the events the rest of the
    code emits. *)

Definition is_done {A} (r : outcome A) : bool :=
  match r with
  | Done _ => true
  | _ => false
  end.

(** The events [spray] emits outside [_login], [_jitter] and
    [_check_sleep]. *)
Definition plain_event (e : event) : Prop :=
  match e with
  | EInfo _ | EPrint | EAddTask _ _ | EAdvance | ELogfile _
  | ESetLoginAttempts _ | EAnalyze _ _ => True
  | _ => False
  end.

(** The messages of the merge. *)
Definition info_event (e : event) : Prop :=
  match e with
  | EInfo _ | EPrint => True
  | _ => False
  end.

Lemma merge_info_spec {A} (U P : list string) (k : M A) s Q :
  (forall pre, Forall info_event pre ->
     wp k (set_passwords (passwords s ++ P) (set_usernames (usernames s ++ U) s))
        (fun r s' tr => Q r s' (pre ++ tr))) ->
  wp (when (0 <? length U)%nat
        (emit (EInfo ("Adding " +:+ pretty (length U)
                      +:+ " new users into the spray!"));;
         modify (fun s => set_usernames (usernames s ++ U) s));;
      when (0 <? length P)%nat
        (emit (EInfo ("Adding " +:+ pretty (length P)
                      +:+ " new passwords to the end the spray!"));;
         modify (fun s => set_passwords (passwords s ++ P) s));;
      when ((0 <? length P)%nat || (0 <? length U)%nat) (emit EPrint);;
      k) s Q.
Proof.
  intros Hk.
  apply wp_when_bind; intros HU; wp_steps;
    (apply wp_when_bind; intros HP; wp_steps);
    rewrite HU, HP; cbn [orb]; wp_steps;
    try (apply length_zero_nil in HU; subst U; rewrite set_usernames_nil in Hk);
    try (apply length_zero_nil in HP; subst P;
         rewrite set_passwords_nil in Hk by reflexivity).
  - apply (Hk [EInfo _; EInfo _; EPrint]). repeat constructor.
  - apply (Hk [EInfo _; EPrint]). repeat constructor.
  - apply (Hk [EInfo _; EPrint]). repeat constructor.
  - apply (Hk []). constructor.
Qed.

Section RunRule.
Variable cfg : config.
Variable E : env.
Variable Sc : state -> Prop.
Variable Ti Td : list event -> Prop.

Hypothesis I_nil : Ti [].
Hypothesis I_app : forall t1 t2, Ti t1 -> Ti t2 -> Ti (t1 ++ t2).
Hypothesis D_nil : Td [].
Hypothesis D_app : forall t1 t2, Td t1 -> Td t2 -> Td (t1 ++ t2).
Hypothesis S_bump : forall s, Sc s -> Sc (bump s).
Hypothesis S_counter : forall s n, Sc s -> Sc (set_login_attempts n s).
Hypothesis S_merge : forall s tu tp,
  Sc s ->
  Sc (set_passwords
       (passwords s ++ additions_at E tp (password_file cfg) (passwords s))
       (set_usernames
          (usernames s ++ additions_at E tu (user_file cfg) (usernames s)) s)).
Hypothesis plain : forall e, plain_event e -> Ti [e] /\ Td [e].

Definition holds {A} (r : outcome A) (s' : state) (tr : list event) : Prop :=
  Sc s' /\ Ti tr /\ (is_done r = true -> Td tr).

Hypothesis login_holds : forall fuel u p s, Sc s -> wp (_login cfg E fuel u p) s holds.
Hypothesis jitter_holds : forall s, Sc s -> wp (_jitter cfg E) s holds.
Hypothesis check_holds : forall s, Sc s -> wp (_check_sleep cfg E) s holds.

Lemma holds_bind {A B} (m : M A) (f : A -> M B) s :
  wp m s holds -> (forall a s1, Sc s1 -> wp (f a) s1 holds) ->
  wp (m ≫= f) s holds.
Proof.
  intros Hm Hf. eapply wp_call; [exact Hm|]. cbn beta.
  intros r s1 t1 (HS1 & HI1 & HD1).
  destruct r as [a| e |]; [|split; [auto|split; [auto|discriminate]]..].
  eapply wp_mono; [apply Hf; exact HS1|]. cbn beta.
  intros r s2 t2 (HS2 & HI2 & HD2).
  split; [exact HS2|]. split; [now apply I_app|].
  intros Hr. apply D_app; auto.
Qed.

Lemma holds_ret {A} (a : A) s : Sc s -> wp (mret a) s holds.
Proof. intros HS. apply wp_ret. repeat split; auto. Qed.

Lemma holds_emit e s : Sc s -> plain_event e -> wp (emit e) s holds.
Proof.
  intros HS He. apply wp_emit. destruct (plain e He). repeat split; auto.
Qed.

Lemma holds_get s : Sc s -> wp get s holds.
Proof. intros HS. unfold wp, get. repeat split; auto. Qed.

Lemma holds_tick s : Sc s -> wp tick s holds.
Proof. intros HS. unfold wp, tick. repeat split; auto. apply (S_bump s HS). Qed.

Lemma holds_assign n s : Sc s -> wp (assign_login_attempts n) s holds.
Proof.
  intros HS. apply wp_assign. destruct (plain (ESetLoginAttempts n) Logic.I).
  repeat split; auto.
Qed.

Lemma holds_when (b : bool) (m : M unit) s :
  Sc s -> (b = true -> wp m s holds) -> wp (when b m) s holds.
Proof. intros HS Hm. destruct b; [now apply Hm|now apply holds_ret]. Qed.

(** One iteration of either inner loop. *)
Lemma attempt_holds fuel (b : bool) u p msg (k : M unit) s :
  Sc s -> (forall s1, Sc s1 -> wp k s1 holds) ->
  wp (when b (_jitter cfg E);; _login cfg E fuel u p;; emit EAdvance;;
      emit (ELogfile msg);; k) s holds.
Proof.
  intros HS Hk.
  apply holds_bind; [apply holds_when; auto|]. intros _ s1 HS1.
  apply holds_bind; [now apply login_holds|]. intros _ s2 HS2.
  apply holds_bind; [now apply holds_emit|]. intros _ s3 HS3.
  apply holds_bind; [now apply holds_emit|]. intros _ s4 HS4.
  now apply Hk.
Qed.

Lemma equal_users_holds fuel users : forall indx s,
  Sc s -> wp (equal_users cfg E fuel indx users) s holds.
Proof.
  induction users as [|u users IH]; intros indx s HS; [now apply holds_ret|].
  cbn [equal_users]. apply attempt_holds; [exact HS|]. intros s1 HS1. now apply IH.
Qed.

Lemma spray_users_holds fuel p users : forall indx s,
  Sc s -> wp (spray_users cfg E fuel p indx users) s holds.
Proof.
  induction users as [|u users IH]; intros indx s HS; [now apply holds_ret|].
  cbn [spray_users].
  replace (if equal cfg then _jitter cfg E else when (0 <? indx)%nat (_jitter cfg E))
    with (when (equal cfg || (0 <? indx)%nat) (_jitter cfg E))
    by (destruct (equal cfg), (0 <? indx)%nat; reflexivity).
  apply attempt_holds; [exact HS|]. intros s1 HS1. now apply IH.
Qed.

Lemma spray_equal_holds fuel s : Sc s -> wp (_spray_equal cfg E fuel) s holds.
Proof.
  intros HS. unfold _spray_equal.
  apply holds_bind; [now apply holds_get|]. intros s0 s1 HS1.
  apply holds_bind; [now apply holds_emit|]. intros _ s2 HS2.
  apply holds_bind; [now apply equal_users_holds|]. intros _ s3 HS3.
  apply holds_bind; [now apply holds_get|]. intros s4 s5 HS5.
  now apply holds_assign.
Qed.

Lemma spray_round_holds fuel p s : Sc s -> wp (spray_round cfg E fuel p) s holds.
Proof.
  intros HS. unfold spray_round.
  apply holds_bind; [now apply check_holds|]. intros _ s1 HS1.
  wp_step. apply wp_check_file_bind. apply wp_check_file_bind.
  apply merge_info_spec. intros pre Hpre.
  assert (Hpre' : Ti pre /\ Td pre).
  { clear - Hpre I_nil I_app D_nil D_app plain.
    induction Hpre as [|e pre He _ [IH1 IH2]]; [auto|].
    assert (Hp : plain_event e) by (destruct e; cbn in *; tauto).
    destruct (plain e Hp). split.
    - apply (I_app [e] pre); auto.
    - apply (D_app [e] pre); auto. }
  destruct Hpre' as [HIp HDp].
  eapply wp_mono.
  - apply holds_bind; [apply holds_get; apply (S_merge _ _ _ (S_bump _ (S_bump _ HS1)))|].
    intros s2 s3 HS3.
    apply holds_bind; [now apply holds_emit|]. intros _ s4 HS4.
    apply holds_bind; [now apply spray_users_holds|]. intros _ s5 HS5.
    apply holds_bind; [now apply holds_get|]. intros s6 s7 HS7.
    now apply holds_assign.
  - cbn beta. intros r s' tr (HS' & HI' & HD').
    split; [exact HS'|]. split; [now apply I_app|].
    intros Hr. apply D_app; auto.
Qed.

Lemma spray_passwords_holds fuel : forall i s,
  Sc s -> wp (spray_passwords cfg E fuel i) s holds.
Proof.
  induction fuel as [|fuel IH]; intros i s HS.
  - apply wp_out_of_fuel. split; [auto|split; [auto|discriminate]].
  - cbn [spray_passwords]. wp_step.
    destruct (passwords s !! i) as [p|]; [|now apply holds_ret].
    apply holds_bind; [now apply spray_round_holds|]. intros _ s1 HS1.
    now apply IH.
Qed.

(** The rule: what holds of the three methods and of the plain events holds
    of the run. *)
Lemma spray_holds fuel s : Sc s -> wp (spray cfg E fuel) s holds.
Proof.
  intros HS. unfold spray.
  apply holds_bind.
  { apply holds_when; [exact HS|]. intros _. now apply spray_equal_holds. }
  intros _ s1 HS1.
  apply holds_bind; [now apply spray_passwords_holds|]. intros _ s2 HS2.
  apply holds_bind; [now apply holds_emit|]. intros _ s3 HS3.
  apply holds_bind; [now apply holds_get|]. intros s4 s5 HS5.
  apply holds_bind; [now apply holds_tick|]. intros now s6 HS6.
  cbn zeta.
  apply holds_bind; [now apply holds_emit|]. intros _ s7 HS7.
  destruct (analyze_result E now (total_hits s4)).
  - now apply holds_ret.
  - apply wp_raise. split; [auto|split; [auto|discriminate]].
Qed.
End RunRule.

(** ** The lists only grow, and without repetitions *)

Lemma additions_at_spec (E : env) now file_path current_list :
  NoDup (additions_at E now file_path current_list) /\
  forall x, x ∈ additions_at E now file_path current_list <->
            x ∈ default [] (read_lines E now file_path) /\ x ∉ current_list.
Proof.
  unfold additions_at.
  destruct (list_of_set_spec (set_order E now)
              (list_to_set (default [] (read_lines E now file_path))
               ∖ list_to_set current_list)) as [Hnd Hin].
  split; [exact Hnd|]. intros x. rewrite Hin.
  rewrite elem_of_difference, !elem_of_list_to_set. reflexivity.
Qed.

Lemma NoDup_extend (E : env) now file_path l :
  NoDup l -> NoDup (l ++ additions_at E now file_path l).
Proof.
  intros Hl. destruct (additions_at_spec E now file_path l) as [Hnd Hin].
  apply NoDup_app. split; [exact Hl|]. split; [|exact Hnd].
  intros x Hx Hx'. apply Hin in Hx'. tauto.
Qed.

(** What a run keeps of the state it started from. *)
Definition grown_from (s0 s : state) : Prop :=
  usernames s0 `prefix_of` usernames s /\
  passwords s0 `prefix_of` passwords s /\
  (NoDup (usernames s0) -> NoDup (usernames s)) /\
  (NoDup (passwords s0) -> NoDup (passwords s)) /\
  target s = target s0.

Lemma grown_from_refl s : grown_from s s.
Proof. repeat split; auto. Qed.

Lemma grown_from_frame s0 s s' : grown_from s0 s -> frame s s' -> grown_from s0 s'.
Proof.
  intros (H1 & H2 & H3 & H4 & H5) (Hu & Hp & _ & _ & Ht & _).
  unfold grown_from. rewrite Hu, Hp, Ht. auto.
Qed.

Section Growth.
Variable cfg : config.
Variable E : env.

Lemma spray_grown fuel s :
  wp (spray cfg E fuel) s (fun r s' tr => grown_from s s').
Proof.
  eapply wp_mono.
  - apply (spray_holds cfg E (grown_from s) (fun _ => True) (fun _ => True));
      try (intros; exact Logic.I); try (intros; split; exact Logic.I).
    + intros s1 H. eapply grown_from_frame; [exact H|]. repeat split.
    + intros s1 n H. exact H.
    + intros s1 tu tp (H1 & H2 & H3 & H4 & H5). unfold grown_from.
      cbn [usernames passwords target set_passwords set_usernames].
      split; [now apply prefix_app_r|]. split; [now apply prefix_app_r|].
      split; [intros H; now apply NoDup_extend, H3|].
      split; [intros H; now apply NoDup_extend, H4|]. exact H5.
    + intros fuel' u p s1 H. eapply wp_mono; [apply login_spec|]. cbn beta.
      intros r s' tr (Hf & _). split; [|auto].
      eapply grown_from_frame; eauto.
    + intros s1 H. eapply wp_mono; [apply jitter_spec|]. cbn beta.
      intros r s' tr (Hf & _). split; [|auto].
      eapply grown_from_frame; eauto.
    + intros s1 (H1 & H2 & H3 & H4 & H5).
      eapply wp_mono; [apply check_sleep_views|]. cbn beta.
      intros r s' tr (Hu & Hp & Ht & _). split; [|auto].
      unfold grown_from. rewrite Hu, Hp, Ht. auto.
    + apply grown_from_refl.
  - cbn beta. intros r s' tr (H & _). exact H.
Qed.
End Growth.

(** However a run ends, the two lists it leaves start with the lists it was
    given (nothing is removed or reordered), and the target is the one it
    started with. *)
Theorem lists_only_grow (cfg : config) (E : env) (fuel : nat) (s : state) :
  usernames s `prefix_of` usernames (spray cfg E fuel s).1.2 /\
  passwords s `prefix_of` passwords (spray cfg E fuel s).1.2 /\
  target (spray cfg E fuel s).1.2 = target s.
Proof.
  pose proof (spray_grown cfg E fuel s) as H. unfold wp in H.
  destruct (spray cfg E fuel s) as [[r s'] tr]. cbn.
  destruct H as (H1 & H2 & _ & _ & H5). auto.
Qed.

(** A list that starts without repetitions never gets one: the re-check
    adds no entry that is already listed, so no password round is run twice
    because of it. *)
Theorem no_repetition_is_added (cfg : config) (E : env) (fuel : nat) (s : state) :
  NoDup (passwords s) ->
  NoDup (passwords (spray cfg E fuel s).1.2).
Proof.
  intros Hnd. pose proof (spray_grown cfg E fuel s) as H. unfold wp in H.
  destruct (spray cfg E fuel s) as [[r s'] tr]. cbn.
  destruct H as (_ & _ & _ & H4 & _). auto.
Qed.

Lemma no_repetition_is_added_witness :
  NoDup (passwords (spray (a_config None false None) growing_env 5
                      (initial_state ["alice"; "bob"] ["pw1"; "pw2"]
                         (Some a_target))).1.2).
Proof.
  apply (no_repetition_is_added (a_config None false None) growing_env 5
           (initial_state ["alice"; "bob"] ["pw1"; "pw2"] (Some a_target))).
  apply (bool_decide_unpack _). vm_compute. exact Logic.I.
Defined.

(** ** What a run never does *)

(** The conditions under which each kind of event can occur in a run that
    started with the target [tgt]. *)
Definition allowed (cfg : config) (tgt : option target_t) (e : event) : Prop :=
  match e with
  | ELogin _ _ _ => is_Some tgt
  | EPrintResponse r is_timeout echo =>
      is_Some tgt /\ echo = print_to_screen cfg /\ (is_timeout = true <-> r = None)
  | EWarning _ => is_Some tgt
  | EBackoffSleep n => n = 5
  | EJitterSleep n =>
      truthy_int (jitter cfg) = true /\
      jitter_min cfg <= n <= default 0 (jitter cfg) /\ 0 <= n
  | EDebug _ => truthy_int (jitter cfg) = true
  | EIntervalSleep n => n = interval cfg * 60 /\ 0 <= n /\ is_Some (attempts cfg)
  | EConfirm _ => pause cfg = true /\ analyze cfg = true /\ is_Some (attempts cfg)
  | EAnalyze _ _ | EInfo _ | ELogfile _ | EPrint | EAddTask _ _ | EAdvance
  | ESetLoginAttempts _ => True
  end.

Definition jitter_sleeps (tr : list event) : list Z :=
  omap (fun e => match e with EJitterSleep n => Some n | _ => None end) tr.

Definition interval_sleeps (tr : list event) : list Z :=
  omap (fun e => match e with EIntervalSleep n => Some n | _ => None end) tr.

Definition backoff_sleeps (tr : list event) : list Z :=
  omap (fun e => match e with EBackoffSleep n => Some n | _ => None end) tr.

Definition confirms (tr : list event) : list string :=
  omap (fun e => match e with EConfirm m => Some m | _ => None end) tr.

Section Allowed.
Variable cfg : config.
Variable E : env.
Variable tgt : option target_t.

Lemma login_allowed fuel u p : forall s,
  target s = tgt ->
  wp (_login cfg E fuel u p) s
     (fun r s' tr => target s' = tgt /\ Forall (allowed cfg tgt) tr).
Proof.
  induction fuel as [|fuel IH]; intros s Ht.
  - wp_steps. split; [exact Ht|constructor].
  - cbn [_login]. wp_step.
    destruct (target s) as [t|] eqn:Hts; [|wp_steps; split; [congruence|constructor]].
    assert (Hsome : is_Some tgt) by (rewrite <- Ht; eauto).
    assert (Hb : target (bump s) = tgt) by (cbn; congruence).
    wp_steps.
    destruct (login_result E (clock s) u p) as [resp | e].
    + wp_steps. split; [exact Hb|]. repeat constructor; auto; discriminate.
    + destruct (matching_clause e).
      * wp_steps. split; [exact Hb|]. repeat constructor; auto.
      * wp_steps. apply wp_sleep_bind; [lia|intros _].
        eapply wp_mono; [apply (IH (bump s)); exact Hb|]. cbn beta.
        intros r s' tr [Ht' Hall]. split; [exact Ht'|].
        repeat (constructor; [cbn; auto|]). exact Hall.
      * wp_steps. split; [exact Hb|]. repeat constructor; auto.
Qed.

Lemma jitter_allowed s :
  target s = tgt ->
  wp (_jitter cfg E) s
     (fun r s' tr => target s' = tgt /\ Forall (allowed cfg tgt) tr).
Proof.
  intros Ht. unfold _jitter.
  destruct (truthy_int (jitter cfg)) eqn:Hj; [|wp_steps; split; [auto|constructor]].
  destruct (Z.ltb_spec (default 0 (jitter cfg)) (jitter_min cfg)) as [Hlt|Hge];
    [wp_steps; split; [auto|constructor]|].
  wp_steps. apply wp_sleep; intros Hn.
  - split; [exact Ht|]. repeat constructor. exact Hj.
  - split; [exact Ht|]. repeat constructor; try exact Hj; try exact Hn.
    + pose proof (Z.mod_pos_bound (entropy E (clock s))
                    (default 0 (jitter cfg) - jitter_min cfg + 1) ltac:(lia)). lia.
    + pose proof (Z.mod_pos_bound (entropy E (clock s))
                    (default 0 (jitter cfg) - jitter_min cfg + 1) ltac:(lia)). lia.
Qed.

Lemma check_sleep_allowed s :
  target s = tgt ->
  wp (_check_sleep cfg E) s
     (fun r s' tr => target s' = tgt /\ Forall (allowed cfg tgt) tr).
Proof.
  intros Ht. unfold _check_sleep. wp_step.
  destruct (decide (Some (login_attempts s) = attempts cfg)) as [Heq|Hne];
    [|wp_steps; split; [auto|constructor]].
  assert (Hlim : is_Some (attempts cfg)) by (rewrite <- Heq; eauto).
  assert (Htail : forall s1 pre,
    target s1 = tgt -> Forall (allowed cfg tgt) pre ->
    wp (sleep_for EIntervalSleep (interval cfg * 60);; emit EPrint;;
        assign_login_attempts 0) s1
       (fun r s' tr => target s' = tgt /\ Forall (allowed cfg tgt) (pre ++ tr))).
  { intros s1 pre Ht1 Hpre. apply wp_sleep_bind; [intros _ | intros Hn; wp_steps].
    - split; [exact Ht1|]. now rewrite app_nil_r.
    - split; [exact Ht1|]. apply Forall_app. split; [exact Hpre|].
      repeat constructor; auto. }
  destruct (analyze cfg) eqn:Han.
  - apply wp_bind. wp_steps.
    destruct (analyze_result E (clock s) (total_hits s)) as [new_hit_total|e].
    + destruct ((total_hits s <? new_hit_total) && pause cfg) eqn:Hp.
      * apply andb_true_iff in Hp as [_ Hp].
        apply wp_bind. apply wp_bind. wp_steps. cbn [app].
        apply (Htail _ [EAnalyze (total_hits s) (Returns new_hit_total); EPrint;
                        EInfo "Identified new potentially successful login! Pausing...";
                        EPrint; EConfirm "[blue]Press enter to continue";
                        EPrint; EInfo "Sleeping until"]);
          [exact Ht|repeat constructor; auto].
      * apply wp_bind. wp_steps. cbn [app].
        apply (Htail _ [EAnalyze (total_hits s) (Returns new_hit_total);
                        EPrint; EInfo "Sleeping until"]);
          [exact Ht|repeat constructor].
    + wp_steps. split; [exact Ht|repeat constructor].
  - wp_steps. apply (Htail s [EPrint; EInfo "Sleeping until"]);
      [exact Ht|repeat constructor].
Qed.

Lemma spray_allowed fuel s :
  target s = tgt ->
  wp (spray cfg E fuel) s (fun r s' tr => Forall (allowed cfg tgt) tr).
Proof.
  intros Ht. eapply wp_mono.
  - apply (spray_holds cfg E (fun s1 => target s1 = tgt)
             (Forall (allowed cfg tgt)) (fun _ => True));
      try (intros; exact Logic.I); try exact Ht.
    + constructor.
    + intros t1 t2 H1 H2. apply Forall_app. auto.
    + intros s1 H. exact H.
    + intros s1 n H. exact H.
    + intros s1 tu tp H. exact H.
    + intros e He. split; [|exact Logic.I].
      constructor; [|constructor]. destruct e; cbn in *; tauto.
    + intros fuel' u p s1 H. eapply wp_mono; [apply login_allowed; exact H|].
      cbn beta. intros r s' tr [H1 H2]. repeat split; auto.
    + intros s1 H. eapply wp_mono; [apply jitter_allowed; exact H|].
      cbn beta. intros r s' tr [H1 H2]. repeat split; auto.
    + intros s1 H. eapply wp_mono; [apply check_sleep_allowed; exact H|].
      cbn beta. intros r s' tr [H1 H2]. repeat split; auto.
  - cbn beta. intros r s' tr (_ & H & _). exact H.
Qed.
End Allowed.

Lemma omap_allowed {B} (cfg : config) (tgt : option target_t)
    (f : event -> option B) (P : B -> Prop) (tr : list event) :
  Forall (allowed cfg tgt) tr ->
  (forall e b, allowed cfg tgt e -> f e = Some b -> P b) ->
  Forall P (omap f tr).
Proof.
  intros Hall Hf. induction Hall as [|e tr He _ IH]; [constructor|].
  cbn. destruct (f e) as [b|] eqn:Hb; [|exact IH].
  constructor; [now apply (Hf e b)|exact IH].
Qed.

Lemma Forall_False_nil {B} (l : list B) : Forall (fun _ => False) l -> l = [].
Proof. destruct l; [reflexivity|]. intros H. now apply Forall_cons in H as [[] _]. Qed.

Lemma spray_trace_allowed (cfg : config) (E : env) (fuel : nat) (s : state) :
  Forall (allowed cfg (target s)) (spray cfg E fuel s).2.
Proof.
  pose proof (spray_allowed cfg E (target s) fuel s eq_refl) as H.
  unfold wp in H. now destruct (spray cfg E fuel s) as [[r s'] tr].
Qed.

(** However a run ends, every jitter sleep in it lasts between [jitter_min]
    and [jitter] seconds (and is not negative); with jitter unset or 0 the
    run contains no jitter sleep at all. *)
Theorem jitter_sleeps_within_bounds (cfg : config) (E : env) (fuel : nat)
    (s : state) :
  Forall (fun n => jitter_min cfg <= n <= default 0 (jitter cfg) /\ 0 <= n)
         (jitter_sleeps (spray cfg E fuel s).2) /\
  (truthy_int (jitter cfg) = false -> jitter_sleeps (spray cfg E fuel s).2 = []).
Proof.
  pose proof (spray_trace_allowed cfg E fuel s) as Hall. split.
  - eapply omap_allowed; [exact Hall|].
    intros [] b Ha [= <-]. cbn in Ha. tauto.
  - intros Hj. apply Forall_False_nil.
    eapply omap_allowed; [exact Hall|].
    intros [] b Ha [= <-]. cbn in Ha. destruct Ha as [Ha _]. congruence.
Qed.

(** A run that starts with no target bound never calls [login], records
    nothing and never backs off: every attempt dies on the missing target
    before anything reaches the network or the result file. *)
Theorem nothing_is_sent_without_target (cfg : config) (E : env) (fuel : nat)
    (s : state) :
  target s = None ->
  login_calls (spray cfg E fuel s).2 = [] /\
  records (spray cfg E fuel s).2 = [].
Proof.
  intros Ht. pose proof (spray_trace_allowed cfg E fuel s) as Hall.
  rewrite Ht in Hall. split; apply Forall_False_nil.
  - eapply omap_allowed; [exact Hall|].
    intros [] b Ha [= <-]. cbn in Ha. now destruct Ha.
  - eapply omap_allowed; [exact Hall|].
    intros [] b Ha [= <-]. cbn in Ha. destruct Ha as [Ha _]. now destruct Ha.
Qed.

Lemma nothing_is_sent_without_target_witness :
  login_calls (spray (a_config (Some 1) true None) quiet_env 3
                 (initial_state ["alice"; "bob"] ["pw1"] None)).2 = [] /\
  records (spray (a_config (Some 1) true None) quiet_env 3
             (initial_state ["alice"; "bob"] ["pw1"] None)).2 = [].
Proof.
  apply (nothing_is_sent_without_target (a_config (Some 1) true None) quiet_env 3
           (initial_state ["alice"; "bob"] ["pw1"] None)).
  reflexivity.
Defined.

(** However a run ends, each of its interval sleeps lasts [interval * 60]
    seconds and each back-off 5 seconds; without a configured limit the run
    never sleeps for an interval. *)
Theorem sleep_lengths (cfg : config) (E : env) (fuel : nat) (s : state) :
  Forall (fun n => n = interval cfg * 60 /\ 0 <= n)
         (interval_sleeps (spray cfg E fuel s).2) /\
  Forall (fun n => n = 5) (backoff_sleeps (spray cfg E fuel s).2) /\
  (attempts cfg = None -> interval_sleeps (spray cfg E fuel s).2 = []).
Proof.
  pose proof (spray_trace_allowed cfg E fuel s) as Hall.
  split; [|split].
  - eapply omap_allowed; [exact Hall|].
    intros [] b Ha [= <-]. cbn in Ha. tauto.
  - eapply omap_allowed; [exact Hall|].
    intros [] b Ha [= <-]. exact Ha.
  - intros Hnone. apply Forall_False_nil.
    eapply omap_allowed; [exact Hall|].
    intros [] b Ha [= <-]. cbn in Ha. destruct Ha as (_ & _ & Ha).
    rewrite Hnone in Ha. now destruct Ha.
Qed.

(** The operator is asked to confirm only in a run that has the pause flag,
    the analysis flag and a limit: with any of them missing, no run ever
    stops for a confirmation. *)
Theorem no_pause_without_flags (cfg : config) (E : env) (fuel : nat) (s : state) :
  pause cfg = false \/ analyze cfg = false \/ attempts cfg = None ->
  confirms (spray cfg E fuel s).2 = [].
Proof.
  intros Hflags. pose proof (spray_trace_allowed cfg E fuel s) as Hall.
  apply Forall_False_nil. eapply omap_allowed; [exact Hall|].
  intros [] b Ha [= <-]. cbn in Ha. destruct Ha as (Hp & Han & Hl).
  destruct Hflags as [H|[H|H]]; try congruence.
  rewrite H in Hl. now destruct Hl.
Qed.

Lemma no_pause_without_flags_witness :
  confirms (spray (a_config (Some 1) true None) quiet_env 4
              (initial_state ["alice"; "bob"] ["pw1"; "pw2"] (Some a_target))).2 = [].
Proof.
  apply (no_pause_without_flags (a_config (Some 1) true None) quiet_env 4
           (initial_state ["alice"; "bob"] ["pw1"; "pw2"] (Some a_target))).
  left. reflexivity.
Defined.

(** A run with jitter between 1 and 3 seconds, and an entropy source that
    counts. *)
Definition jittery_config : config :=
  {| password_file := "passwords.txt"; user_file := "users.txt";
     host := "example.org"; module := "Office365"; path := None;
     output := "out.json"; attempts := Some 2; interval := 1; equal := false;
     timeout := 5; port := 443; fireprox := None; domain := None;
     analyze := true; jitter := Some 3; jitter_min := 1; notify := None;
     webhook := None; pause := true; no_ssl := false;
     print_to_screen := true |}.

(** Every analysis finds one more hit than the one before. *)
Definition counting_env : env :=
  {| all_modules := ["Office365"; "NTLM"; "SMB"];
     login_result := fun _ _ _ => Returns a_response;
     read_lines := fun _ _ => None;
     set_order := fun _ _ => O;
     entropy := fun now => Z.of_nat now;
     analyze_result := fun _ hits => Returns (hits + 1) |}.

Example jitter_sleeps_example :
  jitter_sleeps (spray jittery_config counting_env 4
                   (initial_state ["alice"; "bob"; "carol"] ["pw1"; "pw2"]
                      (Some a_target))).2 = [1; 3; 2; 1].
Proof. vm_compute. reflexivity. Qed.

(** ** The pacing check in detail *)

(** The events of the pause, when the analysis found new hits and the pause
    flag is set. *)
Definition pause_events (cfg : config) (old_hits new_hits : Z) : list event :=
  if (old_hits <? new_hits) && pause cfg
  then [EPrint; EInfo "Identified new potentially successful login! Pausing...";
        EPrint; EConfirm "[blue]Press enter to continue"]
  else [].

Definition sleep_events (cfg : config) : list event :=
  [EPrint; EInfo "Sleeping until"; EIntervalSleep (interval cfg * 60); EPrint;
   ESetLoginAttempts 0].

(** When the counter has reached the limit and the analysis is on, the
    analyzer is asked first; its total is stored whether or not the run
    pauses; the operator is asked to confirm exactly when the total went up
    and the pause flag is set; then the run sleeps for the interval and the
    counter is reset. *)
Theorem check_sleep_with_analysis (cfg : config) (E : env) (s : state) (n : Z) :
  Some (login_attempts s) = attempts cfg ->
  analyze cfg = true ->
  0 <= interval cfg ->
  analyze_result E (clock s) (total_hits s) = Returns n ->
  _check_sleep cfg E s =
  (Done tt,
   set_login_attempts 0 (set_total_hits n (bump s)),
   EAnalyze (total_hits s) (Returns n)
   :: pause_events cfg (total_hits s) n ++ sleep_events cfg).
Proof.
  intros Hlim Han Hint Hres. apply wp_eq. unfold _check_sleep. wp_step.
  rewrite decide_True by exact Hlim. rewrite Han.
  apply wp_bind. wp_steps. rewrite Hres. unfold pause_events, sleep_events.
  destruct ((total_hits s <? n) && pause cfg).
  - apply wp_bind. apply wp_bind. wp_steps.
    apply wp_sleep_bind; [lia|intros _]. wp_steps. reflexivity.
  - apply wp_bind. wp_steps.
    apply wp_sleep_bind; [lia|intros _]. wp_steps. reflexivity.
Qed.

Lemma check_sleep_with_analysis_witness :
  _check_sleep jittery_config counting_env
    (set_login_attempts 2 (initial_state ["alice"] ["pw1"] (Some a_target))) =
  (Done tt,
   set_login_attempts 0
     (set_total_hits 1
        (bump (set_login_attempts 2
                 (initial_state ["alice"] ["pw1"] (Some a_target))))),
   [EAnalyze 0 (Returns 1); EPrint;
    EInfo "Identified new potentially successful login! Pausing...";
    EPrint; EConfirm "[blue]Press enter to continue";
    EPrint; EInfo "Sleeping until"; EIntervalSleep 60; EPrint;
    ESetLoginAttempts 0]).
Proof.
  apply (check_sleep_with_analysis jittery_config counting_env
           (set_login_attempts 2 (initial_state ["alice"] ["pw1"] (Some a_target)))
           1); try reflexivity.
  cbn. lia.
Defined.

(** When the analyzer raises, or the interval is negative, the check raises
    too: the run does not sleep and the counter stays at the limit. *)
Theorem check_sleep_failures (cfg : config) (E : env) (s : state) :
  Some (login_attempts s) = attempts cfg ->
  (forall e,
     analyze cfg = true ->
     analyze_result E (clock s) (total_hits s) = Raises e ->
     _check_sleep cfg E s =
     (Raised e, bump s, [EAnalyze (total_hits s) (Raises e)])) /\
  (analyze cfg = false ->
   interval cfg < 0 ->
   _check_sleep cfg E s = (Raised ValueError, s, [EPrint; EInfo "Sleeping until"])).
Proof.
  intros Hlim. split.
  - intros e Han Hres. apply wp_eq. unfold _check_sleep. wp_step.
    rewrite decide_True by exact Hlim. rewrite Han.
    apply wp_bind. wp_steps. rewrite Hres. wp_steps. reflexivity.
  - intros Han Hint. apply wp_eq. unfold _check_sleep. wp_step.
    rewrite decide_True by exact Hlim. rewrite Han. wp_steps.
    unfold sleep_for. destruct (Z.ltb_spec (interval cfg * 60) 0); [|lia].
    wp_steps. reflexivity.
Qed.

(** The analysis always fails. *)
Definition failing_analysis_env : env :=
  {| all_modules := ["Office365"; "NTLM"; "SMB"];
     login_result := fun _ _ _ => Returns a_response;
     read_lines := fun _ _ => None;
     set_order := fun _ _ => O;
     entropy := fun _ => 0;
     analyze_result := fun _ _ => Raises ValueError |}.

Lemma check_sleep_failures_witness :
  _check_sleep jittery_config failing_analysis_env
    (set_login_attempts 2 (initial_state ["alice"] ["pw1"] (Some a_target))) =
  (Raised ValueError,
   bump (set_login_attempts 2 (initial_state ["alice"] ["pw1"] (Some a_target))),
   [EAnalyze 0 (Raises ValueError)]).
Proof.
  apply (proj1 (check_sleep_failures jittery_config failing_analysis_env
                  (set_login_attempts 2
                     (initial_state ["alice"] ["pw1"] (Some a_target)))
                  eq_refl) ValueError eq_refl eq_refl).
Defined.

(** ** More about [_login] *)

(** An exception that neither clause takes (one that is no [OSError], such
    as [ValueError] or [AttributeError]) leaves [_login] as it came, also
    after any number of retries: nothing is recorded for the attempt. *)
Theorem login_uncaught_propagates (cfg : config) (E : env) (u p : string)
    (n fuel : nat) (s : state) (e : exn_class) :
  is_Some (target s) ->
  (forall k, (k < n)%nat -> retried (login_result E (clock s + k) u p) = true) ->
  login_result E (clock s + n) u p = Raises e ->
  matching_clause e = Uncaught ->
  (n < fuel)%nat ->
  _login cfg E fuel u p s =
  (Raised e, advance (S n) s,
   flat_map (fun k => retry_events u p (login_result E (clock s + k) u p)) (seq 0 n)
   ++ [ELogin u p (Raises e)]) /\
  records (_login cfg E fuel u p s).2 = [].
Proof.
  intros Ht Hretry He Hc Hfuel.
  assert (Hrun : _login cfg E fuel u p s =
    (Raised e, advance (S n) s,
     flat_map (fun k => retry_events u p (login_result E (clock s + k) u p)) (seq 0 n)
     ++ [ELogin u p (Raises e)])).
  { rewrite (login_run cfg E u p n fuel s Ht Hretry); rewrite ?He; cbn; rewrite ?Hc; auto. }
  split; [exact Hrun|]. rewrite Hrun. cbn [snd].
  unfold records. rewrite omap_app.
  change (omap record (flat_map
    (fun k => retry_events u p (login_result E (clock s + k) u p)) (seq 0 n)))
    with (records (flat_map
    (fun k => retry_events u p (login_result E (clock s + k) u p)) (seq 0 n))).
  now rewrite records_retries.
Qed.

(** The target module raises [ValueError] on every call. *)
Definition broken_env : env :=
  {| all_modules := ["Office365"; "NTLM"; "SMB"];
     login_result := fun _ _ _ => Raises ValueError;
     read_lines := fun _ _ => None;
     set_order := fun _ _ => O;
     entropy := fun _ => 0;
     analyze_result := fun _ hits => Returns hits |}.

Lemma login_uncaught_propagates_witness :
  _login (a_config None false None) broken_env 1 "alice" "pw1"
    (initial_state ["alice"] ["pw1"] (Some a_target)) =
  (Raised ValueError,
   advance 1 (initial_state ["alice"] ["pw1"] (Some a_target)),
   [ELogin "alice" "pw1" (Raises ValueError)]).
Proof.
  refine (proj1 (login_uncaught_propagates (a_config None false None) broken_env
                   "alice" "pw1" 0 1
                   (initial_state ["alice"] ["pw1"] (Some a_target)) ValueError
                   _ _ eq_refl eq_refl _)).
  - eexists. reflexivity.
  - intros k Hk. lia.
  - lia.
Defined.

(** When every result is one the retry clause takes, [_login] does not
    return: whatever the depth, the retries use it up, having called [login]
    once per frame, and nothing is recorded. *)
Theorem login_retries_forever (cfg : config) (E : env) (u p : string) :
  forall (fuel : nat) (s : state),
    is_Some (target s) ->
    (forall k, retried (login_result E (clock s + k) u p) = true) ->
    (_login cfg E fuel u p s).1.1 = OutOfFuel /\
    length (login_calls (_login cfg E fuel u p s).2) = fuel /\
    records (_login cfg E fuel u p s).2 = [].
Proof.
  induction fuel as [|fuel IH]; intros s Ht Hretry; [repeat split|].
  pose proof (Hretry 0%nat) as H0. rewrite Nat.add_0_r in H0.
  assert (Hstep : _login cfg E (S fuel) u p s =
    let '(r, s', tr) := _login cfg E fuel u p (bump s) in
    (r, s', retry_events u p (login_result E (clock s) u p) ++ tr)).
  { apply wp_eq. cbn [_login]. wp_step. destruct Ht as [t Ht]. rewrite Ht.
    wp_steps. unfold retried in H0.
    destruct (login_result E (clock s) u p) as [resp|e]; [discriminate|].
    destruct (matching_clause e); try discriminate.
    wp_steps. apply wp_sleep_bind; [lia|intros _].
    unfold wp. now destruct (_login cfg E fuel u p (bump s)) as [[r s'] tr]. }
  rewrite Hstep.
  destruct (IH (bump s)) as (H1 & H2 & H3).
  { destruct Ht as [t Ht]. exists t. exact Ht. }
  { intros k. cbn [clock bump].
    replace (S (clock s) + k)%nat with (clock s + S k)%nat by lia. apply Hretry. }
  destruct (_login cfg E fuel u p (bump s)) as [[r s'] tr]. cbn in *.
  split; [exact H1|]. split; [now rewrite H2|exact H3].
Qed.

(** The target refuses every connection. *)
Definition unreachable_env : env :=
  {| all_modules := ["Office365"; "NTLM"; "SMB"];
     login_result := fun _ _ _ => Raises ConnectionRefusedError;
     read_lines := fun _ _ => None;
     set_order := fun _ _ => O;
     entropy := fun _ => 0;
     analyze_result := fun _ hits => Returns hits |}.

Lemma login_retries_forever_witness :
  (_login (a_config None false None) unreachable_env 7 "alice" "pw1"
     (initial_state ["alice"] ["pw1"] (Some a_target))).1.1 = OutOfFuel.
Proof.
  refine (proj1 (login_retries_forever (a_config None false None) unreachable_env
                   "alice" "pw1" 7
                   (initial_state ["alice"] ["pw1"] (Some a_target)) _ _)).
  - eexists. reflexivity.
  - intros k. reflexivity.
Defined.

(** The second [except] clause names three classes, but the last one covers
    the other two: an exception is retried exactly when it is an [OSError]
    that is no [ConnectTimeout], and it escapes exactly when it is no
    [OSError]. *)
Theorem retry_clause_is_oserror (e : exn_class) :
  (matching_clause e = ExceptConnection <->
   issubclass e OSError = true /\ issubclass e ConnectTimeout = false) /\
  (matching_clause e = Uncaught <-> issubclass e OSError = false) /\
  (issubclass e ConnectionError = true -> issubclass e OSError = true) /\
  (issubclass e ReadTimeout = true -> issubclass e OSError = true).
Proof.
  destruct e; vm_compute; intuition congruence.
Qed.

(** ** The split at [@] *)

(** ["@".join(pieces)] *)
Fixpoint join_at_sign (pieces : list string) : string :=
  match pieces with
  | [] => EmptyString
  | [piece] => piece
  | piece :: rest => piece +:+ String "@" (join_at_sign rest)
  end.

Fixpoint count_at_signs (s : string) : nat :=
  match s with
  | EmptyString => O
  | String c s' => if Ascii.eqb c "@"%char then S (count_at_signs s') else count_at_signs s'
  end.

(** Joining the pieces of a username with [@] gives the username back; there
    is one piece more than there are [@] in it, and no piece contains [@]. *)
Theorem split_at_sign_round_trip (s : string) :
  join_at_sign (split_at_sign s) = s /\
  length (split_at_sign s) = S (count_at_signs s) /\
  Forall (fun piece => has_at_sign piece = false) (split_at_sign s).
Proof.
  induction s as [|c s (IH1 & IH2 & IH3)]; [repeat split; repeat constructor|].
  cbn [split_at_sign count_at_signs].
  destruct (Ascii.eqb_spec c "@") as [->|Hc].
  - split; [|split].
    + cbn [join_at_sign]. destruct (split_at_sign s) eqn:Hs;
        [now apply split_at_sign_nonempty in Hs|]. now rewrite IH1.
    + cbn [length]. now rewrite IH2.
    + constructor; [reflexivity|exact IH3].
  - destruct (split_at_sign s) as [|piece pieces] eqn:Hs;
      [now apply split_at_sign_nonempty in Hs|].
    split; [|split].
    + rewrite <- IH1. destruct pieces; reflexivity.
    + exact IH2.
    + apply Forall_cons in IH3 as [H1 H2]. constructor; [|exact H2].
      cbn. rewrite H1. now destruct (Ascii.eqb_spec c "@").
Qed.

(** A username without [@] is its own password in the equal pass. *)
Lemma local_part_no_at_sign (s : string) :
  has_at_sign s = false -> hd EmptyString (split_at_sign s) = s.
Proof.
  intros H. rewrite split_at_sign_head.
  induction s as [|c s IH]; [reflexivity|].
  cbn in *. destruct (Ascii.eqb c "@"); [discriminate|]. now rewrite IH.
Qed.

(** ** The re-check, again *)

Lemma additions_at_listed (E : env) (now : nat) (file_path : string)
    (current_list : list string) :
  (forall x, x ∈ default [] (read_lines E now file_path) -> x ∈ current_list) ->
  additions_at E now file_path current_list = [].
Proof.
  intros Hsub. apply elem_of_nil_inv. intros x Hx.
  apply additions_at_spec in Hx as [Hx Hnot]. auto.
Qed.

Lemma additions_at_merged (E : env) (now later : nat)
    (file_path : string) (current_list : list string) :
  read_lines E later file_path = read_lines E now file_path ->
  additions_at E later file_path
    (current_list ++ additions_at E now file_path current_list) = [].
Proof.
  intros Hsame. apply additions_at_listed. intros x Hx. rewrite Hsame in Hx.
  apply elem_of_app.
  destruct (decide (x ∈ current_list)) as [Hin|Hout]; [now left|right].
  apply additions_at_spec. auto.
Qed.

(** Once the additions of a check are merged into the list, a later check
    against the same file content returns the empty list: the merge is
    idempotent. *)
Theorem recheck_after_merge_is_empty (E : env) (file_path : string)
    (current_list additions : list string) (s s1 s2 : state) (tr : list event) :
  _check_file_contents E file_path current_list s = (Done additions, s1, tr) ->
  read_lines E (clock s2) file_path = read_lines E (clock s) file_path ->
  _check_file_contents E file_path (current_list ++ additions) s2
  = (Done [], bump s2, []).
Proof.
  rewrite !check_file_run. intros [= <- _ _] Hsame.
  now rewrite additions_at_merged.
Qed.

Lemma recheck_after_merge_is_empty_witness :
  let s := initial_state ["alice"] ["pw1"; "pw2"] (Some a_target) in
  _check_file_contents growing_env "passwords.txt"
    (["pw1"; "pw2"] ++ ["pw4"; "pw3"]) (bump (bump (bump s)))
  = (Done [], bump (bump (bump (bump s))), []).
Proof.
  intros s.
  apply (recheck_after_merge_is_empty growing_env "passwords.txt" ["pw1"; "pw2"]
           ["pw4"; "pw3"] (bump (bump s)) (bump (bump (bump s)))
           (bump (bump (bump s))) []).
  - vm_compute. reflexivity.
  - reflexivity.
Defined.

(** A file that cannot be read, or whose lines are all listed already,
    gives no additions: the check returns the empty list, and all it leaves
    behind is the time it took. *)
Theorem recheck_finds_nothing_new (E : env) (file_path : string)
    (current_list : list string) (s : state) :
  (forall x, x ∈ default [] (read_lines E (clock s) file_path) -> x ∈ current_list) ->
  _check_file_contents E file_path current_list s = (Done [], bump s, []).
Proof.
  intros Hsub. rewrite check_file_run. now rewrite additions_at_listed.
Qed.

Lemma recheck_finds_nothing_new_witness :
  _check_file_contents quiet_env "passwords.txt" ["pw1"]
    (initial_state ["alice"] ["pw1"] (Some a_target))
  = (Done [], bump (initial_state ["alice"] ["pw1"] (Some a_target)), []).
Proof.
  apply (recheck_finds_nothing_new quiet_env "passwords.txt" ["pw1"]
           (initial_state ["alice"] ["pw1"] (Some a_target))).
  intros x Hx. now apply elem_of_nil in Hx.
Defined.

(** ** Binding the target *)

Section Binding.
Variable cfg : config.
Variable E : env.

Lemma scan_modules_spec names : forall s,
  wp (scan_modules cfg names) s
     (fun r s' tr =>
        r = Done tt /\
        usernames s' = usernames s /\ passwords s' = passwords s /\
        login_attempts s' = login_attempts s /\ total_hits s' = total_hits s /\
        target s' = (if bool_decide (module cfg ∈ names)
                     then Some (bind_target cfg (module cfg)) else target s)).
Proof.
  induction names as [|name names IH]; intros s.
  - wp_steps. repeat split.
  - cbn [scan_modules]. destruct (String.eqb_spec (module cfg) name) as [Heq|Hne].
    + unfold when. wp_steps. eapply wp_mono; [apply IH|]. cbn beta.
      intros r s' tr (Hr & Hu & Hp & Hc & Hh & Ht). subst name.
      repeat (split; [assumption|]). rewrite Ht.
      rewrite (bool_decide_eq_true_2 (module cfg ∈ module cfg :: names))
        by (apply elem_of_cons; now left).
      now destruct (bool_decide (module cfg ∈ names)).
    + wp_steps. eapply wp_mono; [apply IH|]. cbn beta.
      intros r s' tr (Hr & Hu & Hp & Hc & Hh & Ht).
      repeat (split; [assumption|]). rewrite Ht.
      apply (f_equal (fun b : bool =>
               if b then Some (bind_target cfg (module cfg)) else target s)).
      apply bool_decide_ext. rewrite elem_of_cons. intuition congruence.
Qed.
End Binding.

(** [initialize_module] always returns. It binds a target exactly when the
    configured name is, letter for letter, the name of a known module; then
    the target carries the host, port, timeout and proxy of the
    configuration, the path only for [NTLM], and plain HTTP when [no_ssl] is
    set. Otherwise the target stays as it was. The lists and the counters
    are not touched. *)
Theorem initialize_module_binds_known (cfg : config) (E : env) (s : state) :
  let s' := (initialize_module cfg E s).1.2 in
  (initialize_module cfg E s).1.1 = Done tt /\
  target s' = (if bool_decide (module cfg ∈ all_modules E)
               then Some {| t_name := module cfg; t_host := host cfg;
                            t_port := port cfg; t_timeout := timeout cfg;
                            t_fireprox := fireprox cfg;
                            t_path := if String.eqb (module cfg) "NTLM"
                                      then path cfg else None;
                            t_plain_http := no_ssl cfg |}
               else target s) /\
  usernames s' = usernames s /\ passwords s' = passwords s /\
  login_attempts s' = login_attempts s /\ total_hits s' = total_hits s.
Proof.
  cbn zeta. unfold initialize_module.
  assert (H : wp (scan_modules cfg (all_modules E);;
                  modify (set_log_name
                    (Some ("/.spraycharles/logs/" +:+ host cfg +:+ ".log")))) s
                (fun r s' tr =>
                   r = Done tt /\
                   target s' = (if bool_decide (module cfg ∈ all_modules E)
                                then Some (bind_target cfg (module cfg)) else target s) /\
                   usernames s' = usernames s /\ passwords s' = passwords s /\
                   login_attempts s' = login_attempts s /\
                   total_hits s' = total_hits s)).
  { eapply wp_call; [apply scan_modules_spec|]. cbn beta.
    intros r s1 t1 (-> & Hu & Hp & Hc & Hh & Ht). wp_steps.
    repeat split; assumption. }
  unfold wp in H.
  destruct ((scan_modules cfg (all_modules E);;
             modify (set_log_name
               (Some ("/.spraycharles/logs/" +:+ host cfg +:+ ".log")))) s)
    as [[r s'] tr].
  cbn. exact H.
Qed.

Example module_names_are_case_sensitive :
  target (initialize_module
            {| password_file := "passwords.txt"; user_file := "users.txt";
               host := "example.org"; module := "office365"; path := None;
               output := "out.json"; attempts := None; interval := 1;
               equal := false; timeout := 5; port := 443; fireprox := None;
               domain := None; analyze := false; jitter := None;
               jitter_min := 0; notify := None; webhook := None;
               pause := false; no_ssl := false; print_to_screen := true |}
            quiet_env (initial_state ["alice"] ["pw1"] None)).1.2 = None /\
  target (initialize_module (a_config None false None) quiet_env
            (initial_state ["alice"] ["pw1"] None)).1.2 = Some a_target.
Proof. vm_compute. auto. Qed.

(** ** Rounds and the end of the run *)

(** The username file holds one name more than the list the run was given. *)
Definition new_user_env : env :=
  {| all_modules := ["Office365"; "NTLM"; "SMB"];
     login_result := fun _ _ _ => Returns a_response;
     read_lines := fun _ file_path =>
       if String.eqb file_path "users.txt" then Some ["alice"; "bob"; "carol"]
       else None;
     set_order := fun _ _ => O;
     entropy := fun _ => 0;
     analyze_result := fun _ hits => Returns hits |}.

(** A completed round has attempted its password against every username of
    the list as the round left it: the usernames the re-check of this very
    round added are attempted in this round, after the older ones. *)
Theorem new_users_join_the_round (cfg : config) (E : env) (fuel : nat)
    (p : string) (s s' : state) (tr : list event) :
  spray_round cfg E fuel p s = (Done tt, s', tr) ->
  exists added,
    usernames s' = usernames s ++ added /\
    (forall u, u ∈ added -> u ∉ usernames s) /\
    attempts_of tr =
      map (fun u => (sent_username cfg u, p)) (usernames s)
      ++ map (fun u => (sent_username cfg u, p)) added /\
    round_tasks tr = [(round_task_of p, length (usernames s ++ added))].
Proof.
  intros Hrun.
  destruct (wp_run _ _ _ _ _ _ (round_spec cfg E fuel p s) Hrun)
    as (_ & _ & _ & _ & _ & Hd).
  destruct (Hd eq_refl) as ((tu & tp & Hu & _) & _ & _ & Hr & Ha).
  exists (additions_at E tu (user_file cfg) (usernames s)).
  split; [exact Hu|]. split.
  - intros u Hin. now apply additions_at_spec in Hin as [_ Hin].
  - rewrite Ha, Hr, Hu, map_app. auto.
Qed.

Lemma new_users_join_the_round_witness :
  let run := spray_round (a_config None false None) new_user_env 1 "pw1"
               (initial_state ["alice"; "bob"] ["pw1"] (Some a_target)) in
  exists added,
    usernames run.1.2 = ["alice"; "bob"] ++ added /\
    attempts_of run.2 =
      map (fun u => (sent_username (a_config None false None) u, "pw1"))
          ["alice"; "bob"]
      ++ map (fun u => (sent_username (a_config None false None) u, "pw1")) added.
Proof.
  intros run.
  assert (Hrun : spray_round (a_config None false None) new_user_env 1 "pw1"
                   (initial_state ["alice"; "bob"] ["pw1"] (Some a_target))
                 = (Done tt, run.1.2, run.2)) by (vm_compute; reflexivity).
  destruct (new_users_join_the_round _ _ _ _ _ _ _ Hrun)
    as (added & H1 & _ & H2 & _).
  exists added. split; [exact H1|exact H2].
Defined.

Example new_users_join_the_round_example :
  attempts_of (spray_round (a_config None false None) new_user_env 1 "pw1"
                 (initial_state ["alice"; "bob"] ["pw1"] (Some a_target))).2 =
  [("alice", "pw1"); ("bob", "pw1"); ("carol", "pw1")].
Proof. vm_compute. reflexivity. Qed.

Lemma wp_true {A} (m : M A) s : wp m s (fun _ _ _ => True).
Proof. unfold wp. now destruct (m s) as [[r s'] tr]. Qed.

(** A run that returns ends with the message and one last analysis, whether
    or not the analysis flag is set; the total that analysis reports is not
    stored (the state keeps the total the analyzer was given). *)
Theorem last_analysis_is_unconditional (cfg : config) (E : env) (fuel : nat)
    (s s' : state) (tr : list event) :
  spray cfg E fuel s = (Done tt, s', tr) ->
  exists pre n,
    tr = pre ++ [EInfo "Spray complete!"; EAnalyze (total_hits s') (Returns n)].
Proof.
  intros Hrun.
  assert (H : wp (spray cfg E fuel) s
    (fun r s' tr =>
       r = Done tt ->
       exists pre n,
         tr = pre ++ [EInfo "Spray complete!"; EAnalyze (total_hits s') (Returns n)])).
  { clear Hrun. unfold spray.
    eapply wp_call; [apply wp_true|]. cbn beta. intros r0 s0 t0 _.
    destruct r0 as [[]| e |]; [|discriminate..].
    eapply wp_call; [apply wp_true|]. cbn beta. intros r1 s1 t1 _.
    destruct r1 as [[]| e |]; [|discriminate..].
    wp_steps. cbn zeta. wp_steps.
    destruct (analyze_result E (clock s1) (total_hits s1)) as [n|e];
      wp_steps; [|discriminate].
    intros _. exists (t0 ++ t1), n. now rewrite <- app_assoc. }
  exact (wp_run _ _ _ _ _ _ H Hrun eq_refl).
Qed.

Lemma last_analysis_is_unconditional_witness :
  let run := spray (a_config None false None) counting_env 3
               (initial_state ["alice"] ["pw1"] (Some a_target)) in
  analyze (a_config None false None) = false /\
  exists pre n,
    run.2 = pre ++ [EInfo "Spray complete!"; EAnalyze (total_hits run.1.2) (Returns n)].
Proof.
  intros run. split; [reflexivity|].
  assert (Hrun : spray (a_config None false None) counting_env 3
                   (initial_state ["alice"] ["pw1"] (Some a_target))
                 = (Done tt, run.1.2, run.2)) by (vm_compute; reflexivity).
  exact (last_analysis_is_unconditional _ _ _ _ _ _ Hrun).
Defined.

(** ** One record per attempt, over the whole run *)

Definition balanced (tr : list event) : Prop :=
  length (records tr) = length (attempts_of tr).

Lemma balanced_app t1 t2 : balanced t1 -> balanced t2 -> balanced (t1 ++ t2).
Proof.
  unfold balanced, records, attempts_of. intros H1 H2.
  rewrite !omap_app, !length_app. lia.
Qed.

Lemma balanced_none (P : event -> Prop) tr :
  Forall P tr ->
  (forall e, P e -> record e = None /\ concluded e = None) ->
  balanced tr.
Proof.
  intros H HP. unfold balanced, records, attempts_of.
  rewrite (omap_none record P tr H), (omap_none concluded P tr H);
    [reflexivity| |]; intros e He; now destruct (HP e He).
Qed.

Section Balance.
Variable cfg : config.
Variable E : env.

Lemma login_balanced fuel u p : forall s,
  wp (_login cfg E fuel u p) s (fun r s' tr => is_done r = true -> balanced tr).
Proof.
  induction fuel as [|fuel IH]; intros s; [wp_steps; discriminate|].
  cbn [_login]. wp_step.
  destruct (target s); [|wp_steps; discriminate]. wp_steps.
  destruct (login_result E (clock s) u p) as [resp|e] eqn:Hr.
  - wp_steps. intros _. reflexivity.
  - destruct (matching_clause e) eqn:Hc.
    + wp_steps. intros _. unfold balanced, records, attempts_of. cbn. now rewrite Hc.
    + wp_steps. apply wp_sleep_bind; [lia|intros _].
      eapply wp_mono; [apply IH|]. cbn beta. intros r s' tr H Hd.
      specialize (H Hd). unfold balanced, records, attempts_of in *. cbn.
      now rewrite Hc.
    + wp_steps. discriminate.
Qed.

Lemma spray_balanced fuel s :
  wp (spray cfg E fuel) s (fun r s' tr => is_done r = true -> balanced tr).
Proof.
  eapply wp_mono.
  - apply (spray_holds cfg E (fun _ => True) (fun _ => True) balanced);
      try (intros; exact Logic.I).
    + reflexivity.
    + apply balanced_app.
    + intros e He. split; [exact Logic.I|].
      eapply (balanced_none plain_event); [repeat constructor; exact He|].
      intros []; cbn; tauto.
    + intros fuel' u p s1 _. eapply wp_mono; [apply login_balanced|].
      cbn beta. intros r s' tr H. repeat split; auto.
    + intros s1 _. eapply wp_mono; [apply jitter_spec|].
      cbn beta. intros r s' tr [_ H]. repeat split; auto. intros _.
      eapply balanced_none; [exact H|]. intros []; cbn; tauto.
    + intros s1 _. eapply wp_mono; [apply check_sleep_spec|].
      cbn beta. intros r s' tr H. repeat split; auto. intros Hd.
      destruct (decide (Some (login_attempts s1) = attempts cfg)).
      * destruct H as (_ & _ & _ & pre & Hpre & H).
        destruct r; [|discriminate..]. destruct H as [-> _].
        apply balanced_app; [|reflexivity].
        eapply balanced_none; [exact Hpre|]. intros []; cbn; tauto.
      * destruct H as (_ & _ & ->). reflexivity.
  - cbn beta. intros r s' tr (_ & _ & H). exact H.
Qed.
End Balance.

Lemma length_round_pairs cfg users (rounds : list (string * nat)) :
  Forall (fun round => (round.2 <= length users)%nat) rounds ->
  length (flat_map (round_pairs cfg users) rounds) = sum_list (map snd rounds).
Proof.
  induction 1 as [|[p n] rounds Hn _ IH]; [reflexivity|].
  cbn [flat_map map sum_list sum_list_with snd]. rewrite length_app, IH.
  unfold round_pairs. rewrite length_map, length_take. cbn in *.
  change (sum_list_with id (map snd rounds)) with (sum_list (map snd rounds)).
  lia.
Qed.

(** In a run that returns, the records in the result file are as many as
    the attempts made, and both are as many as the progress tasks announced:
    no attempt goes unrecorded, none is recorded twice, and every progress
    bar is filled exactly. *)
Theorem one_record_per_attempt (cfg : config) (E : env) (fuel : nat)
    (s s' : state) (tr : list event) :
  spray cfg E fuel s = (Done tt, s', tr) ->
  length (records tr) = length (attempts_of tr) /\
  length (attempts_of tr) = sum_list (map snd (round_tasks tr)).
Proof.
  intros Hrun. split.
  - exact (wp_run _ _ _ _ _ _ (spray_balanced cfg E fuel s) Hrun eq_refl).
  - destruct (wp_run _ _ _ _ _ _ (spray_rounds cfg E fuel s) Hrun) as [_ Hd].
    destruct (Hd eq_refl) as (_ & _ & sizes & Hlen & Hsz & Hrt & Hat).
    rewrite Hat, Hrt, length_app, map_app, sum_list_with_app.
    rewrite length_round_pairs.
    + rewrite !snd_zip by (rewrite ?length_map; lia).
      destruct (equal cfg); [|reflexivity].
      unfold equal_pairs. rewrite length_map. cbn. lia.
    + apply Forall_forall. intros [p n] Hin. cbn.
      apply elem_of_zip_r in Hin.
      rewrite Forall_forall in Hsz. apply Hsz in Hin. lia.
Qed.

Lemma one_record_per_attempt_witness :
  let run := spray (a_config (Some 2) true None) flaky_env 6
               (initial_state ["alice"; "bob"] ["pw1"; "pw2"; "pw3"]
                  (Some a_target)) in
  length (records run.2) = length (attempts_of run.2) /\
  length (attempts_of run.2) = sum_list (map snd (round_tasks run.2)).
Proof.
  intros run.
  assert (Hrun : spray (a_config (Some 2) true None) flaky_env 6
                   (initial_state ["alice"; "bob"] ["pw1"; "pw2"; "pw3"]
                      (Some a_target))
                 = (Done tt, run.1.2, run.2)) by (vm_compute; reflexivity).
  exact (one_record_per_attempt _ _ _ _ _ _ Hrun).
Defined.

(** ** Runs that return *)

(** An environment and a configuration under which nothing can stop a run:
    every attempt ends with a response or a connect timeout after at most
    [B] retries, the jitter range is a range of lengths, the interval is a
    length, the analyzer answers, and the password file never offers a
    password that is not listed in [pws]. *)
Record calm (cfg : config) (E : env) (B : nat) (pws : list string) : Prop := {
  calm_login : forall t u p,
    exists n, (n <= B)%nat /\
      (forall k, (k < n)%nat -> retried (login_result E (t + k) u p) = true) /\
      retried (login_result E (t + n) u p) = false /\
      final_outcome (login_result E (t + n) u p) = Done tt;
  calm_jitter : truthy_int (jitter cfg) = true ->
                0 <= jitter_min cfg <= default 0 (jitter cfg);
  calm_interval : 0 <= interval cfg;
  calm_analysis : forall t hits, exists n, analyze_result E t hits = Returns n;
  calm_passwords : forall t x,
    x ∈ default [] (read_lines E t (password_file cfg)) -> x ∈ pws
}.

(** What such a run keeps: its target and its password list. *)
Definition steady (pws : list string) (s : state) : Prop :=
  is_Some (target s) /\ passwords s = pws.

Section Returns.
Variable cfg : config.
Variable E : env.
Variable B : nat.
Variable pws : list string.
Hypothesis Hcalm : calm cfg E B pws.

Definition returned {A} (r : outcome A) (s' : state) (tr : list event) : Prop :=
  is_done r = true /\ steady pws s'.

Lemma returned_bind {A B'} (m : M A) (f : A -> M B') s :
  wp m s returned -> (forall a s1, steady pws s1 -> wp (f a) s1 returned) ->
  wp (m ≫= f) s returned.
Proof.
  intros Hm Hf. eapply wp_call; [exact Hm|]. cbn beta.
  intros r s1 t1 [Hd Hs]. destruct r as [a| e |]; try discriminate.
  eapply wp_mono; [apply Hf; exact Hs|]. cbn beta. auto.
Qed.

Lemma steady_frame s s' : steady pws s -> frame s s' -> steady pws s'.
Proof.
  intros [Ht Hp] (_ & Hp' & _ & _ & Ht' & _). unfold steady.
  rewrite Ht', Hp'. auto.
Qed.

Lemma login_returns fuel u p s :
  (B < fuel)%nat -> steady pws s -> wp (_login cfg E fuel u p) s returned.
Proof.
  intros Hfuel Hs.
  destruct (calm_login _ _ _ _ Hcalm (clock s) u p) as (n & Hn & Hretry & Hlast & Hout).
  unfold wp. rewrite (login_run cfg E u p n fuel s (proj1 Hs) Hretry Hlast) by lia.
  rewrite Hout. split; [reflexivity|].
  eapply steady_frame; [exact Hs|apply frame_advance].
Qed.

Lemma jitter_returns s : steady pws s -> wp (_jitter cfg E) s returned.
Proof.
  intros Hs. unfold _jitter.
  destruct (truthy_int (jitter cfg)) eqn:Hj; [|wp_steps; split; auto].
  pose proof (calm_jitter _ _ _ _ Hcalm Hj) as [H0 Hle].
  destruct (Z.ltb_spec (default 0 (jitter cfg)) (jitter_min cfg)); [lia|].
  wp_steps. apply wp_sleep; intros Hn.
  - pose proof (Z.mod_pos_bound (entropy E (clock s))
                  (default 0 (jitter cfg) - jitter_min cfg + 1) ltac:(lia)). lia.
  - split; [reflexivity|]. eapply steady_frame; [exact Hs|repeat split].
Qed.

Lemma steady_emit e s : steady pws s -> wp (emit e) s returned.
Proof. intros Hs. apply wp_emit. split; auto. Qed.

Lemma steady_get s : steady pws s -> wp get s returned.
Proof. intros Hs. unfold wp, get. split; auto. Qed.

Lemma steady_ret {A} (a : A) s : steady pws s -> wp (mret a) s returned.
Proof. intros Hs. apply wp_ret. split; auto. Qed.

Lemma steady_assign n s : steady pws s -> wp (assign_login_attempts n) s returned.
Proof. intros Hs. apply wp_assign. split; auto. Qed.

Lemma attempt_returns fuel (b : bool) u p msg (k : M unit) s :
  (B < fuel)%nat -> steady pws s ->
  (forall s1, steady pws s1 -> wp k s1 returned) ->
  wp (when b (_jitter cfg E);; _login cfg E fuel u p;; emit EAdvance;;
      emit (ELogfile msg);; k) s returned.
Proof.
  intros Hfuel Hs Hk.
  apply returned_bind.
  { destruct b; [now apply jitter_returns|now apply steady_ret]. }
  intros _ s1 Hs1. apply returned_bind; [now apply login_returns|].
  intros _ s2 Hs2. apply returned_bind; [now apply steady_emit|].
  intros _ s3 Hs3. apply returned_bind; [now apply steady_emit|].
  intros _ s4 Hs4. now apply Hk.
Qed.

Lemma equal_users_returns fuel users : forall indx s,
  (B < fuel)%nat -> steady pws s ->
  wp (equal_users cfg E fuel indx users) s returned.
Proof.
  induction users as [|u users IH]; intros indx s Hfuel Hs; [now apply steady_ret|].
  cbn [equal_users]. apply attempt_returns; auto.
Qed.

Lemma spray_users_returns fuel p users : forall indx s,
  (B < fuel)%nat -> steady pws s ->
  wp (spray_users cfg E fuel p indx users) s returned.
Proof.
  induction users as [|u users IH]; intros indx s Hfuel Hs; [now apply steady_ret|].
  cbn [spray_users].
  replace (if equal cfg then _jitter cfg E else when (0 <? indx)%nat (_jitter cfg E))
    with (when (equal cfg || (0 <? indx)%nat) (_jitter cfg E))
    by (destruct (equal cfg), (0 <? indx)%nat; reflexivity).
  apply attempt_returns; auto.
Qed.

Lemma check_sleep_returns s : steady pws s -> wp (_check_sleep cfg E) s returned.
Proof.
  intros Hs. pose proof (calm_interval _ _ _ _ Hcalm) as Hint.
  assert (Htail : forall s1, steady pws s1 ->
    wp (sleep_for EIntervalSleep (interval cfg * 60);; emit EPrint;;
        assign_login_attempts 0) s1 returned).
  { intros s1 Hs1. apply wp_sleep_bind; [lia|intros _]. wp_steps. split; auto. }
  unfold _check_sleep. wp_step.
  destruct (decide (Some (login_attempts s) = attempts cfg)); [|now apply steady_ret].
  destruct (analyze cfg).
  - apply wp_bind. wp_steps.
    destruct (calm_analysis _ _ _ _ Hcalm (clock s) (total_hits s)) as [n ->].
    destruct ((total_hits s <? n) && pause cfg).
    + apply wp_bind. apply wp_bind. wp_steps.
      eapply wp_mono; [apply Htail; exact Hs|]. cbn beta. auto.
    + apply wp_bind. wp_steps.
      eapply wp_mono; [apply Htail; exact Hs|]. cbn beta. auto.
  - wp_steps. eapply wp_mono; [apply Htail; exact Hs|]. cbn beta. auto.
Qed.

Lemma spray_round_returns fuel p s :
  (B < fuel)%nat -> steady pws s -> wp (spray_round cfg E fuel p) s returned.
Proof.
  intros Hfuel Hs. unfold spray_round.
  apply returned_bind; [now apply check_sleep_returns|]. intros _ s1 [Ht1 Hp1].
  wp_step. apply wp_check_file_bind. apply wp_check_file_bind.
  assert (Hnone : additions_at E (clock (bump s1)) (password_file cfg) (passwords s1) = []).
  { apply additions_at_listed. intros x Hx. rewrite Hp1.
    eapply (calm_passwords _ _ _ _ Hcalm). exact Hx. }
  rewrite Hnone.
  apply merge_info_spec. intros pre _.
  eapply wp_mono.
  - apply returned_bind; [apply steady_get|].
    { split; [exact Ht1|]. cbn. now rewrite app_nil_r. }
    intros s2 s3 Hs3. apply returned_bind; [now apply steady_emit|].
    intros _ s4 Hs4. apply returned_bind; [now apply spray_users_returns|].
    intros _ s5 Hs5. apply returned_bind; [now apply steady_get|].
    intros s6 s7 Hs7. now apply steady_assign.
  - cbn beta. auto.
Qed.

Lemma spray_passwords_returns fuel : forall i s,
  (B + (length pws - i) < fuel)%nat -> steady pws s ->
  wp (spray_passwords cfg E fuel i) s returned.
Proof.
  induction fuel as [|fuel IH]; intros i s Hfuel Hs; [lia|].
  cbn [spray_passwords]. wp_step.
  destruct (passwords s !! i) as [p|] eqn:Hp; [|now apply steady_ret].
  assert (i < length pws)%nat.
  { rewrite <- (proj2 Hs). eapply lookup_lt_Some; eauto. }
  apply returned_bind; [apply spray_round_returns; [lia|exact Hs]|].
  intros _ s1 Hs1. apply IH; [lia|exact Hs1].
Qed.

Lemma spray_returns fuel s :
  (B + length pws < fuel)%nat -> steady pws s ->
  wp (spray cfg E fuel) s returned.
Proof.
  intros Hfuel Hs. unfold spray.
  apply returned_bind.
  { destruct (equal cfg); [|now apply steady_ret]. cbn [when]. unfold _spray_equal.
    apply returned_bind; [now apply steady_get|]. intros s0 s1 Hs1.
    apply returned_bind; [now apply steady_emit|]. intros _ s2 Hs2.
    apply returned_bind; [apply equal_users_returns; [lia|exact Hs2]|].
    intros _ s3 Hs3.
    apply returned_bind; [now apply steady_get|]. intros s4 s5 Hs5.
    now apply steady_assign. }
  intros _ s1 Hs1.
  apply returned_bind; [apply spray_passwords_returns; [lia|exact Hs1]|].
  intros _ s2 Hs2.
  apply returned_bind; [now apply steady_emit|]. intros _ s3 Hs3.
  wp_steps.
  destruct (calm_analysis _ _ _ _ Hcalm (clock s3) (total_hits s3)) as [n ->].
  wp_steps. split; [reflexivity|]. eapply steady_frame; [exact Hs3|repeat split].
Qed.

End Returns.

(** With a bound target, logins that settle after at most [B] retries, a
    jitter range and an interval that are lengths of time, an analyzer that
    answers and a password file that offers nothing new, [spray] returns:
    no exception leaves it, and [B] plus the number of passwords bounds the
    depth of its recursion and the length of its loop.  The password list
    is the one it started with. *)
Theorem calm_spray_returns (cfg : config) (E : env) (B fuel : nat) (s : state) :
  is_Some (target s) ->
  calm cfg E B (passwords s) ->
  (B + length (passwords s) < fuel)%nat ->
  exists s' tr, spray cfg E fuel s = (Done tt, s', tr) /\ passwords s' = passwords s.
Proof.
  intros Ht Hcalm Hfuel.
  pose proof (spray_returns cfg E B (passwords s) Hcalm fuel s Hfuel
                (conj Ht eq_refl)) as H.
  unfold wp in H. destruct (spray cfg E fuel s) as [[r s'] tr].
  destruct H as [Hd [_ Hp]]. destruct r as [[]| |]; try discriminate.
  exists s', tr. auto.
Qed.

Lemma flaky_is_calm (pws : list string) : calm jittery_config flaky_env 2 pws.
Proof.
  split.
  - intros t u p. exists (2 - t)%nat. split; [lia|]. cbn [login_result flaky_env].
    split; [|split].
    + intros k Hk. destruct (Nat.ltb_spec (t + k) 2); [reflexivity|lia].
    + destruct (Nat.ltb_spec (t + (2 - t)) 2); [lia|reflexivity].
    + destruct (Nat.ltb_spec (t + (2 - t)) 2); [lia|reflexivity].
  - intros _. cbn. lia.
  - cbn. lia.
  - intros t hits. exists hits. reflexivity.
  - intros t x Hx. cbn in Hx. now apply elem_of_nil in Hx.
Qed.

Lemma calm_spray_returns_witness :
  exists s' tr,
    spray jittery_config flaky_env 5
      (initial_state ["alice"; "bob"] ["pw1"; "pw2"] (Some a_target))
    = (Done tt, s', tr) /\
    passwords s' = ["pw1"; "pw2"].
Proof.
  apply (calm_spray_returns jittery_config flaky_env 2 5
           (initial_state ["alice"; "bob"] ["pw1"; "pw2"] (Some a_target))).
  - cbn. eauto.
  - apply flaky_is_calm.
  - cbn. lia.
Defined.

(** ** The rhythm of a run *)

(** What paces a run and what it leaves in the log file: the jitter sleeps,
    the attempts, the updates of the progress bar and the log lines. *)
Inductive beat :=
| Jitter
| Attempt (username password : string)
| Advance
| Logged (message : string).

Definition beat_of (e : event) : option beat :=
  match e with
  | EJitterSleep _ => Some Jitter
  | EAdvance => Some Advance
  | ELogfile message => Some (Logged message)
  | _ => (fun a => Attempt a.1 a.2) <$> concluded e
  end.

Definition beats (tr : list event) : list beat := omap beat_of tr.

(** One iteration of an inner loop, with or without the jitter sleep. *)
Definition attempt_beats (jit : bool) (username password : string) : list beat :=
  (if jit then [Jitter] else []) ++
  [Attempt username password; Advance; Logged ("Login attempted as " +:+ username)].

(** An inner loop from index [indx] on: [jit] tells at which indices
    [_jitter] is called, [sent] and [password] what is passed to [_login]. *)
Fixpoint loop_beats (jit : nat -> bool) (sent password : string -> string)
    (indx : nat) (users : list string) : list beat :=
  match users with
  | [] => []
  | u :: rest =>
      attempt_beats (jit indx) (sent u) (password u)
      ++ loop_beats jit sent password (S indx) rest
  end.

(** The equal pass: jitter from the second username on. *)
Definition equal_beats (cfg : config) (users : list string) : list beat :=
  loop_beats (fun indx => truthy_int (jitter cfg) && (0 <? indx)%nat)
             (fun u => u) (fun u => hd EmptyString (split_at_sign u)) 0 users.

(** A password round over the first [n] usernames: jitter from the second
    username on, and before the first one too when the equal flag is set. *)
Definition round_beats (cfg : config) (users : list string)
    (round : string * nat) : list beat :=
  loop_beats (fun indx => truthy_int (jitter cfg) && (equal cfg || (0 <? indx)%nat))
             (sent_username cfg) (fun _ => round.1) 0 (take round.2 users).

Definition plays (B : list beat) (r : outcome unit) (s' : state)
    (tr : list event) : Prop :=
  r = Done tt -> beats tr = B.

Lemma beats_app t1 t2 : beats (t1 ++ t2) = beats t1 ++ beats t2.
Proof. apply omap_app. Qed.

Lemma beats_login u p tr :
  Forall (login_event u p) tr ->
  beats tr = map (fun a => Attempt a.1 a.2) (attempts_of tr).
Proof.
  induction 1 as [|e tr He _ IH]; [reflexivity|].
  unfold beats, attempts_of in *. destruct e; try now destruct He.
  all: cbn [omap list_omap beat_of]; try exact IH.
  cbn [fmap option_fmap option_map].
  match goal with |- context [concluded ?e] => destruct (concluded e) end;
    cbn; now rewrite IH.
Qed.

Lemma beats_analysis tr : Forall analysis_event tr -> beats tr = [].
Proof. intros H. eapply omap_none; [exact H|]. now intros []. Qed.

Section Rhythm.
Variable cfg : config.
Variable E : env.

Lemma jitter_beats s :
  wp (_jitter cfg E) s
     (plays (if truthy_int (jitter cfg) then [Jitter] else [])).
Proof.
  unfold _jitter, plays. destruct (truthy_int (jitter cfg)); [|wp_steps; auto].
  destruct (_ <? _); [wp_steps; discriminate|].
  wp_steps. apply wp_sleep; [discriminate|reflexivity].
Qed.

Lemma attempt_beats_spec fuel (b : bool) u p (k : M unit) s R :
  (forall s1, wp k s1 (plays R)) ->
  wp (when b (_jitter cfg E);; _login cfg E fuel u p;; emit EAdvance;;
      emit (ELogfile ("Login attempted as " +:+ u));; k) s
     (plays (attempt_beats (truthy_int (jitter cfg) && b) u p ++ R)).
Proof.
  intros Hk.
  eapply wp_call with
    (P := plays (if truthy_int (jitter cfg) && b then [Jitter] else [])).
  { destruct b; [rewrite andb_true_r; apply jitter_beats|].
    rewrite andb_false_r. wp_steps. now intros _. }
  intros r s1 t1 H1. destruct r as [[]| |]; [|unfold plays; discriminate..].
  eapply wp_call; [apply login_spec|]. cbn beta.
  intros r s2 t2 (_ & Hl & Hd). destruct r as [[]| |]; [|unfold plays; discriminate..].
  wp_steps. eapply wp_mono; [apply Hk|]. cbn beta. intros r s3 t3 H3 Hr.
  rewrite !beats_app, (H1 eq_refl), (beats_login _ _ _ Hl), (Hd eq_refl).
  change (beats (EAdvance :: ELogfile ("Login attempted as " +:+ u) :: t3))
    with (Advance :: Logged ("Login attempted as " +:+ u) :: beats t3).
  rewrite (H3 Hr). unfold attempt_beats. cbn [map fst snd].
  rewrite <- !app_assoc. reflexivity.
Qed.

Lemma equal_users_beats fuel users : forall indx s,
  wp (equal_users cfg E fuel indx users) s
     (plays (loop_beats (fun indx => truthy_int (jitter cfg) && (0 <? indx)%nat)
               (fun u => u) (fun u => hd EmptyString (split_at_sign u))
               indx users)).
Proof.
  induction users as [|u users IH]; intros indx s; [wp_steps; now intros _|].
  cbn [equal_users loop_beats]. apply attempt_beats_spec. intros s1. apply IH.
Qed.

Lemma spray_users_beats fuel p users : forall indx s,
  wp (spray_users cfg E fuel p indx users) s
     (plays (loop_beats
               (fun indx => truthy_int (jitter cfg) && (equal cfg || (0 <? indx)%nat))
               (sent_username cfg) (fun _ => p) indx users)).
Proof.
  induction users as [|u users IH]; intros indx s; [wp_steps; now intros _|].
  cbn [spray_users loop_beats].
  replace (if equal cfg then _jitter cfg E else when (0 <? indx)%nat (_jitter cfg E))
    with (when (equal cfg || (0 <? indx)%nat) (_jitter cfg E))
    by (destruct (equal cfg), (0 <? indx)%nat; reflexivity).
  apply attempt_beats_spec. intros s1. apply IH.
Qed.

Lemma check_sleep_beats s :
  wp (_check_sleep cfg E) s (fun r s' tr => beats tr = []).
Proof.
  eapply wp_mono; [apply check_sleep_spec|]. cbn beta. intros r s' tr H.
  destruct (decide (Some (login_attempts s) = attempts cfg)).
  - destruct H as (_ & _ & _ & pre & Hpre & H).
    destruct r; destruct H as [-> _]; rewrite ?beats_app, (beats_analysis pre Hpre);
      reflexivity.
  - now destruct H as (_ & _ & ->).
Qed.

Lemma round_beats_spec fuel p s :
  wp (spray_round cfg E fuel p) s
     (fun r s' tr =>
        r = Done tt ->
        beats tr = round_beats cfg (usernames s') (p, length (usernames s'))).
Proof.
  unfold spray_round.
  eapply wp_call; [apply check_sleep_beats|]. cbn beta. intros r s1 t1 H1.
  destruct r as [[]| |]; [|discriminate..].
  wp_step. apply wp_check_file_bind. apply wp_check_file_bind.
  apply merge_spec. intros pre Hpre. wp_steps.
  eapply wp_call; [apply wp_conj; [apply spray_users_spec|apply spray_users_beats]|].
  cbn beta. intros r s2 t2 [(Hf & _ & _) Hb].
  destruct r as [[]| |]; [|discriminate..].
  wp_steps. intros _. destruct Hf as (Hfu & _).
  cbn [usernames set_login_attempts]. rewrite Hfu.
  rewrite !beats_app, H1, (beats_analysis pre Hpre).
  unfold round_beats. cbn [fst snd]. rewrite firstn_all.
  change (beats (EAddTask ?d ?n :: ?t)) with (beats t).
  rewrite beats_app, (Hb eq_refl). cbn. now rewrite app_nil_r.
Qed.

Lemma spray_passwords_beats fuel : forall i s,
  wp (spray_passwords cfg E fuel i) s
     (fun r s' tr =>
        usernames s `prefix_of` usernames s' /\
        passwords s `prefix_of` passwords s' /\
        (r = Done tt ->
         beats tr =
           flat_map (round_beats cfg (usernames s'))
             (zip (drop i (passwords s')) (map snd (round_tasks tr))))).
Proof.
  induction fuel as [|fuel IH]; intros i s.
  - wp_steps. repeat split; try reflexivity; discriminate.
  - cbn [spray_passwords]. wp_step.
    destruct (passwords s !! i) as [p|] eqn:Hp.
    + eapply wp_call; [apply wp_conj; [apply round_spec|apply round_beats_spec]|].
      cbn beta zeta.
      intros r s1 t1 [(Hu1 & Hp1 & _ & _ & _ & Hd1) Hb1].
      destruct r as [[]| e |]; [|repeat split; auto; discriminate..].
      destruct (Hd1 eq_refl) as (_ & _ & _ & Hr1 & _).
      eapply wp_mono; [apply IH|]. cbn beta.
      intros r s' t2 (Hu2 & Hp2 & Hd2).
      split; [etrans; eauto|]. split; [etrans; eauto|].
      intros Hr. rewrite round_tasks_app, beats_app, Hr1, (Hb1 eq_refl), (Hd2 Hr).
      rewrite (prefix_drop_lookup (passwords s) (passwords s') i p Hp)
        by (etrans; eauto).
      cbn [app map fst snd zip zip_with flat_map]. f_equal.
      unfold round_beats. cbn [fst snd].
      now rewrite firstn_all, (prefix_take _ _ Hu2).
    + wp_steps. do 2 (split; [reflexivity|]).
      intros _. apply lookup_ge_None in Hp. now rewrite drop_ge by exact Hp.
Qed.

Lemma equal_part_beats fuel s :
  wp (when (equal cfg) (_spray_equal cfg E fuel)) s
     (plays (if equal cfg then equal_beats cfg (usernames s) else [])).
Proof.
  destruct (equal cfg); [|wp_steps; now intros _].
  cbn [when]. unfold _spray_equal. wp_steps.
  eapply wp_call; [apply equal_users_beats|]. cbn beta. intros r s1 t1 H1.
  destruct r as [[]| |]; [|unfold plays; discriminate..].
  wp_steps. intros _.
  change (beats (EAddTask ?d ?n :: ?t)) with (beats t).
  rewrite beats_app, (H1 eq_refl). cbn. now rewrite app_nil_r.
Qed.

Lemma spray_beats fuel s :
  wp (spray cfg E fuel) s
     (fun r s' tr =>
        r = Done tt ->
        beats tr =
          (if equal cfg then equal_beats cfg (usernames s) else [])
          ++ flat_map (round_beats cfg (usernames s'))
               (zip (passwords s')
                    (map snd (drop (if equal cfg then 1 else 0)%nat (round_tasks tr))))).
Proof.
  unfold spray.
  eapply wp_call; [apply wp_conj; [apply equal_part_spec|apply equal_part_beats]|].
  cbn beta. intros r s0 t0 [(Hu0 & _ & _ & _ & _ & Hd0) Hb0].
  destruct r as [[]| e |]; [|discriminate..].
  destruct (Hd0 eq_refl) as (_ & _ & Hr0 & _).
  eapply wp_call; [apply spray_passwords_beats|]. cbn beta.
  intros r s1 t1 (_ & _ & Hd1).
  destruct r as [[]| e |]; [|discriminate..].
  eapply wp_mono; [apply spray_end_spec|]. cbn beta.
  intros r s2 t2 (Hu2 & Hp2 & Hal2) _.
  destruct (analysis_event_views t2 Hal2) as (_ & _ & Hr2 & _).
  rewrite !round_tasks_app, !beats_app, Hr0, Hr2, (Hb0 eq_refl), (Hd1 eq_refl),
    (beats_analysis t2 Hal2), Hu2, Hp2, drop_0, !app_nil_r.
  f_equal. now destruct (equal cfg).
Qed.

End Rhythm.

(** In a completed run the jitter sleeps, the attempts, the progress
    updates and the log lines come in this order: in the equal pass, each
    username is tried with its local part, the progress bar moves and the log
    gets the line with that username, with a jitter sleep before every
    username but the first; then, password by password, the same for each
    username of the round, sent and logged with the domain prefix, where the
    jitter sleep is left out before the first username of a round only when
    the equal flag is unset. Without a jitter setting there is no jitter
    sleep at all. The sizes of the rounds are those announced to the progress
    bar. *)
Theorem rhythm_of_a_run (cfg : config) (E : env) (fuel : nat)
    (s s' : state) (tr : list event) :
  spray cfg E fuel s = (Done tt, s', tr) ->
  beats tr =
    (if equal cfg then equal_beats cfg (usernames s) else [])
    ++ flat_map (round_beats cfg (usernames s'))
         (zip (passwords s')
              (map snd (drop (if equal cfg then 1 else 0)%nat (round_tasks tr)))).
Proof.
  intros Hrun. exact (wp_run _ _ _ _ _ _ (spray_beats cfg E fuel s) Hrun eq_refl).
Qed.

Lemma rhythm_of_a_run_witness :
  let cfg := {| password_file := "passwords.txt"; user_file := "users.txt";
                host := "example.org"; module := "Office365"; path := None;
                output := "out.json"; attempts := Some 1; interval := 1;
                equal := true; timeout := 5; port := 443; fireprox := None;
                domain := Some "CORP"; analyze := false; jitter := Some 3;
                jitter_min := 1; notify := None; webhook := None;
                pause := false; no_ssl := false; print_to_screen := true |} in
  let run := spray cfg flaky_env 4
               (initial_state ["alice@example.org"; "bob"] ["pw1"] (Some a_target)) in
  beats run.2 =
    [Attempt "alice@example.org" "alice"; Advance;
     Logged "Login attempted as alice@example.org";
     Jitter; Attempt "bob" "bob"; Advance; Logged "Login attempted as bob";
     Jitter; Attempt "CORP\alice@example.org" "pw1"; Advance;
     Logged "Login attempted as CORP\alice@example.org";
     Jitter; Attempt "CORP\bob" "pw1"; Advance;
     Logged "Login attempted as CORP\bob"].
Proof.
  intros cfg run.
  assert (Hrun : spray cfg flaky_env 4
                   (initial_state ["alice@example.org"; "bob"] ["pw1"] (Some a_target))
                 = (Done tt, run.1.2, run.2)) by (vm_compute; reflexivity).
  rewrite (rhythm_of_a_run _ _ _ _ _ _ Hrun). vm_compute. reflexivity.
Defined.

(** ** The hit total *)

Section Hits.
Variable cfg : config.
Variable E : env.
Hypothesis Hoff : analyze cfg = false \/ attempts cfg = None.

Lemma spray_keeps_hits fuel s :
  wp (spray cfg E fuel) s
     (fun r s' tr => total_hits s' = total_hits s /\ log_name s' = log_name s).
Proof.
  eapply wp_mono.
  - apply (spray_holds cfg E
             (fun s' => total_hits s' = total_hits s /\ log_name s' = log_name s)
             (fun _ => True) (fun _ => True));
      try (intros; exact Logic.I); try (intros; split; exact Logic.I).
    + intros s1 H. exact H.
    + intros s1 n H. exact H.
    + intros s1 tu tp H. exact H.
    + intros fuel' u p s1 [H1 H2]. eapply wp_mono; [apply login_spec|]. cbn beta.
      intros r s' tr ((_ & _ & _ & Hh & _ & Hl) & _). split; [|auto].
      rewrite Hh, Hl. auto.
    + intros s1 [H1 H2]. eapply wp_mono; [apply jitter_spec|]. cbn beta.
      intros r s' tr ((_ & _ & _ & Hh & _ & Hl) & _). split; [|auto].
      rewrite Hh, Hl. auto.
    + intros s1 H. unfold _check_sleep. wp_step.
      destruct (decide (Some (login_attempts s1) = attempts cfg)) as [Heq|Hne];
        [|wp_steps; split; auto].
      destruct Hoff as [Ha|Hn]; [|congruence]. rewrite Ha. wp_steps.
      apply wp_sleep_bind; [intros _; split; auto|intros _]. wp_steps.
      split; auto.
    + split; reflexivity.
  - cbn beta. intros r s' tr (H & _). exact H.
Qed.
End Hits.

(** The hit total changes only where a pacing check runs the analysis:
    with the analysis flag unset or without a limit, a run leaves the total
    (and the name of the log file) as it found them, however it ends and
    whatever the last analysis returns, since the result of that one is
    dropped. *)
Theorem last_analysis_result_is_dropped (cfg : config) (E : env) (fuel : nat)
    (s : state) :
  analyze cfg = false \/ attempts cfg = None ->
  total_hits (spray cfg E fuel s).1.2 = total_hits s /\
  log_name (spray cfg E fuel s).1.2 = log_name s.
Proof.
  intros Hoff. pose proof (spray_keeps_hits cfg E Hoff fuel s) as H.
  unfold wp in H. destruct (spray cfg E fuel s) as [[r s'] tr]. exact H.
Qed.

Lemma last_analysis_result_is_dropped_witness :
  let run := spray (a_config (Some 1) true None) counting_env 4
               (initial_state ["alice"; "bob"] ["pw1"; "pw2"] (Some a_target)) in
  (total_hits run.1.2 = 0 /\ log_name run.1.2 = None) /\
  last run.2 = Some (EAnalyze 0 (Returns 1)).
Proof.
  split; [|vm_compute; reflexivity].
  apply (last_analysis_result_is_dropped (a_config (Some 1) true None) counting_env 4
           (initial_state ["alice"; "bob"] ["pw1"; "pw2"] (Some a_target))).
  left. reflexivity.
Defined.
